(** * Bandit algorithms: epsilon-greedy, softmax, UCB1 and the Monte Carlo harness

    A shallow embedding of

    - [bandit_algorithms/epsilon_greedy/epsilon_greedy_algorithm.py]
    - [bandit_algorithms/softmax/softmax_algorithm.py]
    - [bandit_algorithms/upper_confidence_bound/ucb.py]
    - [testing/test_bandit_algorithms.py]

    Conventions of the embedding.

    - A [float64] is a real number ([R]).  Rounding, overflow, [inf] and [nan]
      are outside the reals: an operation whose numpy result would be [inf] or
      [nan] (division by zero, logarithm of a non-positive number, square root
      of a negative number) ends the run with the outcome [NonReal], distinct
      from a Python exception ([Raise]); numpy itself goes on with a
      [RuntimeWarning].
    - An [int64] (numpy's default integer, the items of [counts]) is a [Z]
      with the wrap-around written out ([wrap64]).
    - A Python object is a record of its attributes; a method is a computation
      in the monad [M] that threads the object and the state of the global
      generator [np.random].  An exception leaves the world as it was when it
      was raised.
    - [np.random] is an interface ([NumpyRandom]): its draws are arbitrary
      values in their documented ranges.
    - The attributes [counts] and [values] are numpy arrays, as [initialize]
      creates them; the constructors' default [None] is not represented. *)

From Stdlib Require Import Reals Lra Lia ZArith List Bool.
Import ListNotations.
Local Open Scope R_scope.

(** ** Outcomes *)

(** Python exceptions raised by the modelled calls. *)
Inductive exn : Type := ValueError | IndexError.

(** Floating-point operations without a real result: a division whose
    divisor is zero, [log] of a number that is not positive, [sqrt] of a
    negative number. *)
Inductive fpe : Type := DivideByZero | LogDomain | SqrtDomain.

Inductive result (A : Type) : Type :=
| Ok (a : A)
| Raise (e : exn)
| NonReal (w : fpe).

Arguments Ok {A} a.
Arguments Raise {A} e.
Arguments NonReal {A} w.

Definition rbind {A B} (r : result A) (k : A -> result B) : result B :=
  match r with
  | Ok a => k a
  | Raise e => Raise e
  | NonReal w => NonReal w
  end.

Notation "'let?' x ':=' c 'in' k" := (rbind c (fun x => k))
  (at level 10, x name, c at level 100, k at level 200).

Fixpoint rmap {A B} (f : A -> result B) (l : list A) : result (list B) :=
  match l with
  | [] => Ok []
  | a :: t => let? b := f a in let? bs := rmap f t in Ok (b :: bs)
  end.

(** ** Machine integers and floating-point primitives *)

Definition wrap64 (z : Z) : Z :=
  ((z + 9223372036854775808) mod 18446744073709551616 - 9223372036854775808)%Z.

Definition Rgtb (x y : R) : bool := if Rgt_dec x y then true else false.

Definition Rleb (x y : R) : bool := if Rle_dec x y then true else false.

Definition Req0b (x : R) : bool := if Req_dec_T x 0 then true else false.

(** [x / y] on float64 scalars and arrays. *)
Definition np_div (x y : R) : result R :=
  if Req0b y then NonReal DivideByZero else Ok (x / y).

(** [np.log]. *)
Definition np_log (x : R) : result R :=
  if Rgtb x 0 then Ok (ln x) else NonReal LogDomain.

(** [np.sqrt]. *)
Definition np_sqrt (x : R) : result R :=
  if Rgtb 0 x then NonReal SqrtDomain else Ok (sqrt x).

(** ** numpy arrays as lists *)

(** [range(n)]. *)
Definition range (n : Z) : list nat := seq 0 (Z.to_nat n).

(** [len(a)]. *)
Definition len {A} (a : list A) : Z := Z.of_nat (length a).

(** [np.zeros(n, dtype=int)] and [np.zeros(n, dtype=float)]. *)
Definition np_zeros {A} (zero : A) (n : Z) : result (list A) :=
  if (n <? 0)%Z then Raise ValueError else Ok (repeat zero (Z.to_nat n)).

(** Position designated by the index [i] in a sequence of [n] items:
    a negative index counts from the end. *)
Definition position (n : nat) (i : Z) : result nat :=
  if ((0 <=? i) && (i <? Z.of_nat n))%Z then Ok (Z.to_nat i)
  else if ((- Z.of_nat n <=? i) && (i <? 0))%Z then Ok (Z.to_nat (Z.of_nat n + i))
  else Raise IndexError.

(** [a[i]]. *)
Definition getitem {A} (d : A) (a : list A) (i : Z) : result A :=
  let? k := position (length a) i in Ok (nth k a d).

Fixpoint replace_nth {A} (k : nat) (v : A) (a : list A) : list A :=
  match a, k with
  | [], _ => []
  | _ :: t, O => v :: t
  | x :: t, S k' => x :: replace_nth k' v t
  end.

(** [a[i] = v]. *)
Definition setitem {A} (a : list A) (i : Z) (v : A) : result (list A) :=
  let? k := position (length a) i in Ok (replace_nth k v a).

(** [np.sum] of an int64 array. *)
Definition np_sum (a : list Z) : Z :=
  fold_left (fun acc c => wrap64 (acc + c)) a 0%Z.

(** [np.sum] of a float64 array. *)
Definition np_sum_float (a : list R) : R :=
  fold_left Rplus a 0.

(** [np.argmax]: the scan keeps the first index whose item is greater than
    every item before it. *)
Fixpoint argmax_scan {A} (gtb : A -> A -> bool)
    (best_i : nat) (best : A) (i : nat) (a : list A) : nat :=
  match a with
  | [] => best_i
  | x :: t =>
      if gtb x best then argmax_scan gtb i x (S i) t
      else argmax_scan gtb best_i best (S i) t
  end.

Definition np_argmax_by {A} (gtb : A -> A -> bool) (a : list A) : result Z :=
  match a with
  | [] => Raise ValueError
  | x :: t => Ok (Z.of_nat (argmax_scan gtb 0 x 1 t))
  end.

Definition np_argmax (a : list R) : result Z := np_argmax_by Rgtb a.

Definition np_argmax_int (a : list Z) : result Z := np_argmax_by Z.gtb a.

(** [np.cumsum]. *)
Fixpoint cumsum_from (acc : R) (a : list R) : list R :=
  match a with
  | [] => []
  | x :: t => (acc + x) :: cumsum_from (acc + x) t
  end.

Definition np_cumsum (a : list R) : list R := cumsum_from 0 a.

(** ** The generator [np.random] *)

Class NumpyRandom (G : Type) : Type := {
  (** the float of [np.random.random()], in [[0, 1)] *)
  sample_float : G -> R * G;
  (** the integer of [np.random.randint(lo, hi)] for [lo < hi] *)
  sample_int : Z -> Z -> G -> Z * G;
  (** the category hit by the single trial of
      [np.random.multinomial(1, pvals, 1)] *)
  sample_category : list R -> G -> nat * G;
  sample_float_range : forall g, 0 <= fst (sample_float g) < 1;
  sample_int_range : forall lo hi g,
      (lo < hi)%Z -> (lo <= fst (sample_int lo hi g) < hi)%Z;
  sample_category_range : forall p ps g,
      (fst (sample_category (p :: ps) g) < length (p :: ps))%nat
}.

(** ** Objects, the world and the monad of methods *)

(** The class of a strategy object, with the hyperparameter stored by its
    constructor ([self.epsilon], [self.temperature]); no method assigns it. *)
Inductive cls : Type :=
| EpsilonGreedy (epsilon : R)
| AnnealingEpsilonGreedy
| Softmax (temperature : R)
| AnnealingSoftmax
| UCB.

Record bandit : Type := {
  klass : cls;
  counts : list Z;
  values : list R
}.

Record world (G : Type) : Type := {
  self : bandit;
  rng : G
}.

Arguments self {G} w.
Arguments rng {G} w.

Definition M (G A : Type) : Type := world G -> result A * world G.

Definition ret {G A} (a : A) : M G A := fun w => (Ok a, w).

Definition bind {G A B} (c : M G A) (k : A -> M G B) : M G B :=
  fun w =>
    match c w with
    | (Ok a, w') => k a w'
    | (Raise e, w') => (Raise e, w')
    | (NonReal x, w') => (NonReal x, w')
    end.

Definition lift {G A} (r : result A) : M G A := fun w => (r, w).

Notation "x <- c ;; k" := (bind c (fun x => k))
  (at level 61, c at next level, right associativity).
Notation "c ;;; k" := (bind c (fun _ => k))
  (at level 61, right associativity).

Definition get_counts {G} : M G (list Z) := fun w => (Ok (counts (self w)), w).

Definition get_values {G} : M G (list R) := fun w => (Ok (values (self w)), w).

Definition set_counts {G} (c : list Z) : M G unit :=
  fun w => (Ok tt, {| self := {| klass := klass (self w); counts := c;
                                 values := values (self w) |};
                      rng := rng w |}).

Definition set_values {G} (v : list R) : M G unit :=
  fun w => (Ok tt, {| self := {| klass := klass (self w);
                                 counts := counts (self w); values := v |};
                      rng := rng w |}).

(** [for i in l: s = body(i, s)]. *)
Fixpoint for_ {G S} (l : list nat) (body : nat -> S -> M G S) (s : S) : M G S :=
  match l with
  | [] => ret s
  | i :: t => s' <- body i s ;; for_ t body s'
  end.

(** [[f(i) for i in l]], the items computed in order. *)
Fixpoint collect {G A} (l : list nat) (f : nat -> M G A) : M G (list A) :=
  match l with
  | [] => ret []
  | i :: t => a <- f i ;; r <- collect t f ;; ret (a :: r)
  end.

Section Random.
Context {G : Type} `{NumpyRandom G}.

(** [np.random.random()]. *)
Definition np_random : M G R :=
  fun w => let (z, g) := sample_float (rng w) in
           (Ok z, {| self := self w; rng := g |}).

(** [np.random.randint(lo, hi)]. *)
Definition np_randint (lo hi : Z) : M G Z :=
  fun w =>
    if (lo <? hi)%Z then
      let (k, g) := sample_int lo hi (rng w) in
      (Ok k, {| self := self w; rng := g |})
    else (Raise ValueError, w).

(** The checks of [multinomial] on [pvals]: every entry in [[0, 1]] and
    [sum(pvals[:-1]) <= 1 + 1e-12]. *)
Definition pvals_ok (pvals : list R) : bool :=
  forallb (fun p => Rleb 0 p && Rleb p 1) pvals
  && Rleb (np_sum_float (removelast pvals)) (1 + 1 / 1000000000000).

Definition one_hot (n k : nat) : list Z :=
  map (fun i => if Nat.eqb i k then 1%Z else 0%Z) (seq 0 n).

(** [np.random.multinomial(1, pvals, 1)]: one row, a single 1 in the
    column of the category hit (no column at all for an empty [pvals]). *)
Definition np_multinomial1 (pvals : list R) : M G (list (list Z)) :=
  fun w =>
    if pvals_ok pvals then
      let (k, g) := sample_category pvals (rng w) in
      (Ok [one_hot (length pvals) k], {| self := self w; rng := g |})
    else (Raise ValueError, w).
End Random.

(** ** epsilon_greedy_algorithm.py *)

Module EpsilonGreedy.
Section Methods.
Context {G : Type} `{NumpyRandom G}.

Definition __init__ (epsilon : R) (counts : list Z) (values : list R) : bandit :=
  {| klass := EpsilonGreedy epsilon; counts := counts; values := values |}.

Definition initialize (n_arms : Z) : M G unit :=
  c <- lift (np_zeros 0%Z n_arms) ;;
  set_counts c ;;;
  v <- lift (np_zeros 0 n_arms) ;;
  set_values v.

Definition select_arm (epsilon : R) : M G Z :=
  z <- np_random ;;
  if Rgtb z epsilon then
    v <- get_values ;; lift (np_argmax v)
  else
    v <- get_values ;; np_randint 0 (len v).

Definition update (chosen_arm : Z) (reward : R) : M G unit :=
  c <- get_counts ;;
  old <- lift (getitem 0%Z c chosen_arm) ;;
  c' <- lift (setitem c chosen_arm (wrap64 (old + 1))) ;;
  set_counts c' ;;;
  c <- get_counts ;;
  n <- lift (getitem 0%Z c chosen_arm) ;;
  v <- get_values ;;
  value <- lift (getitem 0 v chosen_arm) ;;
  share <- lift (np_div (IZR (wrap64 (n - 1))) (IZR n)) ;;
  part <- lift (np_div reward (IZR n)) ;;
  let new_value := value * share + part in
  v <- get_values ;;
  v' <- lift (setitem v chosen_arm new_value) ;;
  set_values v'.
End Methods.
End EpsilonGreedy.

(** The decay schedule of both annealing classes, [1 / np.log(t + 0.0000001)]. *)
Definition schedule (t : Z) : result R :=
  let? l := np_log (IZR t + 1 / 10000000) in np_div 1 l.

Module AnnealingEpsilonGreedy.
Section Methods.
Context {G : Type} `{NumpyRandom G}.

Definition __init__ (counts : list Z) (values : list R) : bandit :=
  {| klass := AnnealingEpsilonGreedy; counts := counts; values := values |}.

Definition initialize : Z -> M G unit := EpsilonGreedy.initialize.

Definition select_arm : M G Z :=
  c <- get_counts ;;
  let t := wrap64 (np_sum c + 1) in
  epsilon <- lift (schedule t) ;;
  z <- np_random ;;
  if Rgtb z epsilon then
    v <- get_values ;; lift (np_argmax v)
  else
    v <- get_values ;; np_randint 0 (len v).

Definition update : Z -> R -> M G unit := EpsilonGreedy.update.
End Methods.
End AnnealingEpsilonGreedy.

(** ** softmax_algorithm.py *)

Module Softmax.
Section Methods.
Context {G : Type} `{NumpyRandom G}.

Definition __init__ (temperature : R) (counts : list Z) (values : list R) : bandit :=
  {| klass := Softmax temperature; counts := counts; values := values |}.

Definition initialize (n_arms : Z) : M G unit :=
  c <- lift (np_zeros 0%Z n_arms) ;;
  set_counts c ;;;
  v <- lift (np_zeros 0 n_arms) ;;
  set_values v.

Definition categorical_draw (probs : list R) : M G Z :=
  preds <- np_multinomial1 probs ;;
  lift (np_argmax_int (concat preds)).

(** [np.exp(z) / np.sum(np.exp(z))]. *)
Definition softmax_probs (z : list R) : result (list R) :=
  let e := map exp z in
  let s := np_sum_float e in
  rmap (fun x => np_div x s) e.

Definition select_arm (temperature : R) : M G Z :=
  v <- get_values ;;
  z <- lift (rmap (fun x => np_div x temperature) v) ;;
  probs <- lift (softmax_probs z) ;;
  categorical_draw probs.

Definition update (chosen_arm : Z) (reward : R) : M G unit :=
  c <- get_counts ;;
  old <- lift (getitem 0%Z c chosen_arm) ;;
  c' <- lift (setitem c chosen_arm (wrap64 (old + 1))) ;;
  set_counts c' ;;;
  c <- get_counts ;;
  n <- lift (getitem 0%Z c chosen_arm) ;;
  v <- get_values ;;
  value <- lift (getitem 0 v chosen_arm) ;;
  share <- lift (np_div (IZR (wrap64 (n - 1))) (IZR n)) ;;
  part <- lift (np_div reward (IZR n)) ;;
  let new_value := value * share + part in
  v <- get_values ;;
  v' <- lift (setitem v chosen_arm new_value) ;;
  set_values v'.
End Methods.
End Softmax.

Module AnnealingSoftmax.
Section Methods.
Context {G : Type} `{NumpyRandom G}.

Definition __init__ (counts : list Z) (values : list R) : bandit :=
  {| klass := AnnealingSoftmax; counts := counts; values := values |}.

Definition initialize : Z -> M G unit := Softmax.initialize.

Definition select_arm : M G Z :=
  c <- get_counts ;;
  let t := wrap64 (np_sum c + 1) in
  temperature <- lift (schedule t) ;;
  v <- get_values ;;
  z <- lift (rmap (fun x => np_div x temperature) v) ;;
  probs <- lift (Softmax.softmax_probs z) ;;
  Softmax.categorical_draw probs.

Definition update : Z -> R -> M G unit := Softmax.update.
End Methods.
End AnnealingSoftmax.

(** ** ucb.py *)

Module UCB.
Section Methods.
Context {G : Type}.

Definition __init__ (counts : list Z) (values : list R) : bandit :=
  {| klass := UCB; counts := counts; values := values |}.

Definition initialize (n_arms : Z) : M G unit :=
  c <- lift (np_zeros 0%Z n_arms) ;;
  set_counts c ;;;
  v <- lift (np_zeros 0 n_arms) ;;
  set_values v.

(** The first loop: the first [arm] of [range(n_arms)] with
    [self.counts[arm] == 0], if any. *)
Definition unvisited (c : list Z) (n_arms : Z) : option nat :=
  find (fun arm => (nth arm c 0 =? 0)%Z) (range n_arms).

(** The body of the second loop: the item stored in [ucb_values[arm]]. *)
Definition ucb_value (n : Z) (arm : nat) : M G R :=
  l <- lift (np_log (IZR n)) ;;
  c <- get_counts ;;
  q <- lift (np_div (2 * l) (IZR (nth arm c 0%Z))) ;;
  bonus <- lift (np_sqrt q) ;;
  v <- get_values ;;
  value <- lift (getitem 0 v (Z.of_nat arm)) ;;
  ret (value + bonus).

Definition select_arm : M G Z :=
  c <- get_counts ;;
  let n_arms := len c in
  match unvisited c n_arms with
  | Some arm => ret (Z.of_nat arm)
  | None =>
      c <- get_counts ;;
      let n := np_sum c in
      ucb_values <- collect (range n_arms) (ucb_value n) ;;
      lift (np_argmax ucb_values)
  end.

Definition update (chosen_arm : Z) (reward : R) : M G unit :=
  c <- get_counts ;;
  old <- lift (getitem 0%Z c chosen_arm) ;;
  c' <- lift (setitem c chosen_arm (wrap64 (old + 1))) ;;
  set_counts c' ;;;
  c <- get_counts ;;
  n <- lift (getitem 0%Z c chosen_arm) ;;
  v <- get_values ;;
  value <- lift (getitem 0 v chosen_arm) ;;
  share <- lift (np_div (IZR (wrap64 (n - 1))) (IZR n)) ;;
  part <- lift (np_div reward (IZR n)) ;;
  let new_value := value * share + part in
  v <- get_values ;;
  v' <- lift (setitem v chosen_arm new_value) ;;
  set_values v'.
End Methods.
End UCB.

(** ** Method calls on a strategy object: dispatch on its class *)

Section Dispatch.
Context {G : Type} `{NumpyRandom G}.

Definition initialize (n_arms : Z) : M G unit :=
  fun w =>
    match klass (self w) with
    | EpsilonGreedy _ => EpsilonGreedy.initialize n_arms w
    | AnnealingEpsilonGreedy => AnnealingEpsilonGreedy.initialize n_arms w
    | Softmax _ => Softmax.initialize n_arms w
    | AnnealingSoftmax => AnnealingSoftmax.initialize n_arms w
    | UCB => UCB.initialize n_arms w
    end.

Definition select_arm : M G Z :=
  fun w =>
    match klass (self w) with
    | EpsilonGreedy epsilon => EpsilonGreedy.select_arm epsilon w
    | AnnealingEpsilonGreedy => AnnealingEpsilonGreedy.select_arm w
    | Softmax temperature => Softmax.select_arm temperature w
    | AnnealingSoftmax => AnnealingSoftmax.select_arm w
    | UCB => UCB.select_arm w
    end.

Definition update (chosen_arm : Z) (reward : R) : M G unit :=
  fun w =>
    match klass (self w) with
    | EpsilonGreedy _ => EpsilonGreedy.update chosen_arm reward w
    | AnnealingEpsilonGreedy => AnnealingEpsilonGreedy.update chosen_arm reward w
    | Softmax _ => Softmax.update chosen_arm reward w
    | AnnealingSoftmax => AnnealingSoftmax.update chosen_arm reward w
    | UCB => UCB.update chosen_arm reward w
    end.
End Dispatch.

(** ** test_bandit_algorithms.py *)

Record BernoulliArm : Type := { p : R }.

(** A two-dimensional float64 array with its shape. *)
Record ndarray2 : Type := {
  nrows : nat;
  ncols : nat;
  cells : list (list R)
}.

(** [np.zeros((n, h))]. *)
Definition np_zeros2 (n h : Z) : result ndarray2 :=
  if ((n <? 0) || (h <? 0))%Z then Raise ValueError
  else Ok {| nrows := Z.to_nat n; ncols := Z.to_nat h;
             cells := repeat (repeat 0 (Z.to_nat h)) (Z.to_nat n) |}.

(** [a[i, j] = v] for indices of the two loops. *)
Definition setitem2 (a : ndarray2) (i j : nat) (v : R) : ndarray2 :=
  {| nrows := nrows a; ncols := ncols a;
     cells := replace_nth i (replace_nth j v (nth i (cells a) [])) (cells a) |}.

Definition column (a : ndarray2) (j : nat) : list R :=
  map (fun row => nth j row 0) (cells a).

(** [np.mean(a, axis=0)]: per column, the sum over the rows divided by the
    number of rows. *)
Definition np_mean_axis0 (a : ndarray2) : result (list R) :=
  rmap (fun j => np_div (np_sum_float (column a j)) (INR (nrows a)))
       (seq 0 (ncols a)).

Section Harness.
Context {G : Type} `{NumpyRandom G}.

Definition draw (arm : BernoulliArm) : M G R :=
  z <- np_random ;;
  if Rgtb z (p arm) then ret 0 else ret 1.

(** One time step of one simulation. *)
Definition play (arms : list BernoulliArm) (sim t : nat)
    (tables : ndarray2 * ndarray2) : M G (ndarray2 * ndarray2) :=
  let (chosen_arms, rewards) := tables in
  chosen_arm <- select_arm ;;
  let chosen_arms := setitem2 chosen_arms sim t (IZR chosen_arm) in
  arm <- lift (getitem {| p := 0 |} arms chosen_arm) ;;
  reward <- draw arm ;;
  let rewards := setitem2 rewards sim t reward in
  update chosen_arm reward ;;;
  ret (chosen_arms, rewards).

(** The two nested loops. *)
Definition simulate (arms : list BernoulliArm) (num_simulations horizon : Z)
    (tables : ndarray2 * ndarray2) : M G (ndarray2 * ndarray2) :=
  for_ (range num_simulations)
    (fun sim tables =>
       initialize (len arms) ;;;
       for_ (range horizon) (play arms sim) tables)
    tables.

Definition test_algorithm (arms : list BernoulliArm)
    (num_simulations horizon : Z) : M G (ndarray2 * list R * list R) :=
  chosen_arms <- lift (np_zeros2 num_simulations horizon) ;;
  rewards <- lift (np_zeros2 num_simulations horizon) ;;
  tables <- simulate arms num_simulations horizon (chosen_arms, rewards) ;;
  let (chosen_arms, rewards) := tables : ndarray2 * ndarray2 in
  average_rewards <- lift (np_mean_axis0 rewards) ;;
  let cumulative_rewards := np_cumsum average_rewards in
  ret (chosen_arms, average_rewards, cumulative_rewards).
End Harness.

(** ** Scenarios and vocabulary of the specification *)

(** A sequence of [update(arm, reward)] calls. *)
Fixpoint updates {G} `{NumpyRandom G} (calls : list (Z * R)) : M G unit :=
  match calls with
  | [] => ret tt
  | (arm, reward) :: rest => update arm reward ;;; updates rest
  end.


(** [n] calls to [select_arm] in a row; the arms returned. *)
Fixpoint selections {G} `{NumpyRandom G} (n : nat) : M G (list Z) :=
  match n with
  | O => ret []
  | S n' => arm <- select_arm ;; arms <- selections n' ;; ret (arm :: arms)
  end.

Definition total (c : list Z) : Z := fold_right Z.add 0%Z c.

Definition Rsum (a : list R) : R := fold_right Rplus 0 a.




(** [i] is the index of the first occurrence of the maximum of [a]. *)
Definition first_max (a : list R) (i : nat) : Prop :=
  (i < length a)%nat
  /\ (forall j, (j < length a)%nat -> nth j a 0 <= nth i a 0)
  /\ (forall j, (j < i)%nat -> nth j a 0 < nth i a 0).

(** The upper-confidence score [value + sqrt(2 ln(n) / count)] of an arm. *)
Definition ucb_score (n : Z) (count : Z) (value : R) : R :=
  value + sqrt (2 * ln (IZR n) / IZR count).

(** The scores of all arms, in the order of the arms. *)
Definition ucb_scores (n : Z) (c : list Z) (v : list R) : list R :=
  map (fun cv => ucb_score n (fst cv) (snd cv)) (combine c v).

(** ** A generator reading its draws from a tape *)

(** The tape is a list of integers, one per draw: [k] gives the float
    [(k mod 8) / 8], the integer [lo + k mod (hi - lo)], the category
    [k mod len(pvals)]; an empty tape gives 0, [lo] and category 0. *)

Definition tape_float (g : list Z) : R * list Z :=
  match g with
  | [] => (0, [])
  | k :: t => (IZR (k mod 8) / 8, t)
  end.

Definition tape_int (lo hi : Z) (g : list Z) : Z * list Z :=
  match g with
  | [] => (lo, [])
  | k :: t => ((lo + k mod (hi - lo))%Z, t)
  end.

Definition tape_category (pvals : list R) (g : list Z) : nat * list Z :=
  match g with
  | [] => (0%nat, [])
  | k :: t => (Z.to_nat (k mod Z.of_nat (length pvals)), t)
  end.

#[export] Instance Tape : NumpyRandom (list Z).
Proof.
  refine {| sample_float := tape_float;
            sample_int := tape_int;
            sample_category := tape_category |}.
  - intros [|k t]; cbn [tape_float fst]; [lra|].
    pose proof (Z.mod_pos_bound k 8 eq_refl) as [Hlo Hhi].
    apply IZR_le in Hlo. apply IZR_lt in Hhi. lra.
  - intros lo hi [|k t] Hlt; cbn [tape_int fst]; [lia|].
    pose proof (Z.mod_pos_bound k (hi - lo)). lia.
  - intros q qs [|k t]; cbn [tape_int fst]; [cbn; lia|].
    cbn [tape_category fst].
    pose proof (Z.mod_pos_bound k (Z.of_nat (length (q :: qs)))) as Hb.
    cbn [length] in *. lia.
Defined.

(** ** States and predicates used in the statements *)

(** The world once the generator has advanced to [g]. *)
Definition drawn {G} (w : world G) (g : G) : world G :=
  {| self := self w; rng := g |}.

(** The world left by [initialize(K)]. *)
Definition initialized {G} (K : Z) (w : world G) : world G :=
  {| self := {| klass := klass (self w);
                counts := repeat 0%Z (Z.to_nat K);
                values := repeat 0 (Z.to_nat K) |};
     rng := rng w |}.

(** The world left by an [update] of the arm at position [k]. *)
Definition after_update {G} (k : nat) (reward : R) (w : world G) : world G :=
  let old := nth k (counts (self w)) 0%Z in
  {| self :=
       {| klass := klass (self w);
          counts := replace_nth k (old + 1)%Z (counts (self w));
          values := replace_nth k
                      (nth k (values (self w)) 0 * (IZR old / IZR (old + 1))
                       + reward / IZR (old + 1))
                      (values (self w)) |};
     rng := rng w |}.


(** The object has [K] arms and [J] plays in all. *)
Definition ready (K : nat) (J : Z) (b : bandit) : Prop :=
  length (counts b) = K /\ length (values b) = K
  /\ Forall (fun c => (0 <= c)%Z) (counts b) /\ total (counts b) = J.


(** The computation leaves the object as it found it. *)
Definition reads_only {G A} (c : M G A) : Prop :=
  forall w, self (snd (c w)) = self w.

(** The table has [n] rows of [h] cells. *)
Definition shaped (n h : nat) (a : ndarray2) : Prop :=
  nrows a = n /\ ncols a = h /\ length (cells a) = n
  /\ Forall (fun row => length row = h) (cells a).

Definition both_shaped (n h : nat) (tables : ndarray2 * ndarray2) : Prop :=
  shaped n h (fst tables) /\ shaped n h (snd tables).

(** Worlds with the tape generator. *)
Definition tape_world (b : bandit) (tape : list Z) : world (list Z) :=
  {| self := b; rng := tape |}.

(** Concrete inputs of the examples. *)
Definition greedy_world : world (list Z) :=
  tape_world (EpsilonGreedy.__init__ 0 [2%Z; 3%Z] [1 / 2; 3 / 4]) [5%Z; 1%Z].

Definition unlucky_world : world (list Z) :=
  tape_world (EpsilonGreedy.__init__ 0 [0%Z; 0%Z] [0; 1]) [0%Z; 0%Z].




Definition one_arm : list BernoulliArm := [{| p := 1 / 2 |}].

(** ** Further vocabulary *)

(** The probabilities that [Softmax.select_arm] and
    [AnnealingSoftmax.select_arm] hand to [categorical_draw]:
    [z = self.values / temperature], then [np.exp(z) / np.sum(np.exp(z))]. *)
Definition softmax_pvals (temperature : R) (v : list R) : result (list R) :=
  let? z := rmap (fun x => np_div x temperature) v in Softmax.softmax_probs z.


(** Every cell of the table satisfies [P]. *)
Definition cells_all (P : R -> Prop) (a : ndarray2) : Prop :=
  Forall (Forall P) (cells a).

(** A probability vector for the examples. *)
Definition quarters : list R := [1 / 4; 3 / 4].

(** Worlds of the further examples. *)
Definition played_world : world (list Z) :=
  tape_world (UCB.__init__ [3%Z; 0%Z] [1 / 3; 0]) [4%Z].




Definition lone_world : world (list Z) :=
  tape_world (UCB.__init__ [2%Z] [1 / 2]) [].
(** * Properties *)

(** ** Primitives *)

Lemma wrap64_small z :
  (-9223372036854775808 <= z < 9223372036854775808)%Z -> wrap64 z = z.
Proof.
  intros Hz. unfold wrap64.
  rewrite Z.mod_small by lia. lia.
Qed.

Lemma Rgtb_true x y : x > y -> Rgtb x y = true.
Proof. intros Hxy. unfold Rgtb. destruct (Rgt_dec x y); [reflexivity | contradiction]. Qed.

Lemma Rgtb_false x y : x <= y -> Rgtb x y = false.
Proof. intros Hxy. unfold Rgtb. destruct (Rgt_dec x y); [lra | reflexivity]. Qed.

Lemma Rgtb_spec x y : reflect (x > y) (Rgtb x y).
Proof. unfold Rgtb. destruct (Rgt_dec x y); constructor; assumption. Qed.

Lemma np_div_ok x y : y <> 0 -> np_div x y = Ok (x / y).
Proof.
  intros Hy. unfold np_div, Req0b.
  destruct (Req_dec_T y 0); [contradiction | reflexivity].
Qed.

Lemma np_div_zero x : np_div x 0 = NonReal DivideByZero.
Proof.
  unfold np_div, Req0b. destruct (Req_dec_T 0 0) as [_ | Hne]; [reflexivity | now destruct Hne].
Qed.

Lemma np_div_cases x y :
  (y = 0 /\ np_div x y = NonReal DivideByZero) \/ (y <> 0 /\ np_div x y = Ok (x / y)).
Proof.
  destruct (Req_dec_T y 0) as [-> | Hy].
  - left. split; [reflexivity | apply np_div_zero].
  - right. split; [assumption | now apply np_div_ok].
Qed.

Lemma np_log_ok x : 0 < x -> np_log x = Ok (ln x).
Proof. intros Hx. unfold np_log. now rewrite Rgtb_true. Qed.

Lemma np_sqrt_ok x : 0 <= x -> np_sqrt x = Ok (sqrt x).
Proof. intros Hx. unfold np_sqrt. now rewrite Rgtb_false. Qed.

(** ** Indexing *)

Lemma position_nonneg n i :
  (0 <= i < Z.of_nat n)%Z -> position n i = Ok (Z.to_nat i).
Proof.
  intros Hi. unfold position.
  destruct (Z.leb_spec 0 i), (Z.ltb_spec i (Z.of_nat n)); try lia. reflexivity.
Qed.

Lemma position_of_nat n k : (k < n)%nat -> position n (Z.of_nat k) = Ok k.
Proof.
  intros Hk. rewrite position_nonneg by lia. now rewrite Nat2Z.id.
Qed.


Lemma position_inv n i k :
  position n i = Ok k ->
  (k < n)%nat /\ (i = Z.of_nat k \/ i = (Z.of_nat k - Z.of_nat n)%Z).
Proof.
  unfold position.
  destruct (Z.leb_spec 0 i), (Z.ltb_spec i (Z.of_nat n)); cbn [andb];
    try (destruct (Z.leb_spec (- Z.of_nat n) i), (Z.ltb_spec i 0); cbn [andb]);
    intros Hk; inversion Hk; subst; lia.
Qed.

Lemma position_cases n i :
  (exists k, position n i = Ok k) \/ position n i = Raise IndexError.
Proof.
  unfold position.
  destruct ((0 <=? i) && (i <? Z.of_nat n))%Z; [left; eauto|].
  destruct ((- Z.of_nat n <=? i) && (i <? 0))%Z; [left; eauto | right; reflexivity].
Qed.


Lemma replace_nth_length {A} k (v : A) a : length (replace_nth k v a) = length a.
Proof.
  revert k. induction a as [|x a IH]; intros [|k]; cbn; try reflexivity.
  now rewrite IH.
Qed.

Lemma nth_replace_nth_eq {A} k (v d : A) a :
  (k < length a)%nat -> nth k (replace_nth k v a) d = v.
Proof.
  revert k. induction a as [|x a IH]; intros [|k] Hk; cbn in *; try lia; try reflexivity.
  apply IH. lia.
Qed.

Lemma nth_replace_nth_neq {A} k j (v d : A) a :
  j <> k -> nth j (replace_nth k v a) d = nth j a d.
Proof.
  revert k j. induction a as [|x a IH]; intros [|k] [|j] Hjk; cbn; try reflexivity; try lia.
  apply IH. lia.
Qed.

Lemma total_replace_nth k v c :
  (k < length c)%nat -> total (replace_nth k v c) = (total c - nth k c 0%Z + v)%Z.
Proof.
  revert k. induction c as [|x c IH]; intros [|k] Hk; cbn [length] in Hk; try lia.
  - cbn. lia.
  - cbn [replace_nth nth].
    change (total (x :: replace_nth k v c)) with (x + total (replace_nth k v c))%Z.
    change (total (x :: c)) with (x + total c)%Z.
    rewrite IH by lia. lia.
Qed.

(** ** The running mean *)

Section Update.
Context {G : Type} `{NumpyRandom G}.

Lemma update_dispatch arm reward (w : world G) :
  update arm reward w = EpsilonGreedy.update arm reward w.
Proof. unfold update. destruct (klass (self w)); reflexivity. Qed.

Lemma initialize_dispatch n_arms (w : world G) :
  initialize n_arms w = EpsilonGreedy.initialize n_arms w.
Proof. unfold initialize. destruct (klass (self w)); reflexivity. Qed.

Lemma update_run arm reward k (w : world G) :
  length (values (self w)) = length (counts (self w)) ->
  position (length (counts (self w))) arm = Ok k ->
  (0 <= nth k (counts (self w)) 0 < 9223372036854775807)%Z ->
  update arm reward w = (Ok tt, after_update k reward w).
Proof.
  intros Hlen Hpos Hold.
  destruct (position_inv _ _ _ Hpos) as [Hk _].
  rewrite update_dispatch. unfold EpsilonGreedy.update.
  cbv beta iota delta
    [bind lift ret get_counts get_values set_counts set_values getitem setitem rbind].
  cbn [self counts values klass rng].
  rewrite Hpos. cbv beta iota.
  rewrite replace_nth_length, Hpos. cbv beta iota.
  rewrite Hlen, Hpos. cbv beta iota.
  rewrite nth_replace_nth_eq by assumption.
  set (old := nth k (counts (self w)) 0%Z) in *.
  rewrite (wrap64_small (old + 1)) by lia.
  replace (old + 1 - 1)%Z with old by lia.
  rewrite (wrap64_small old) by lia.
  assert (Hn : IZR (old + 1) <> 0) by (apply not_0_IZR; lia).
  rewrite !np_div_ok by assumption.
  reflexivity.
Qed.
End Update.





Section RunningMean.
Context {G : Type} `{NumpyRandom G}.

Lemma initialize_run n_arms (w : world G) :
  (0 <= n_arms)%Z ->
  initialize n_arms w =
  (Ok tt, {| self := {| klass := klass (self w);
                        counts := repeat 0%Z (Z.to_nat n_arms);
                        values := repeat 0 (Z.to_nat n_arms) |};
             rng := rng w |}).
Proof.
  intros Hn. rewrite initialize_dispatch. unfold EpsilonGreedy.initialize.
  cbv beta iota delta [bind lift ret set_counts set_values np_zeros].
  destruct (Z.ltb_spec n_arms 0); [lia | reflexivity].
Qed.

Lemma initialize_negative n_arms (w : world G) :
  (n_arms < 0)%Z -> initialize n_arms w = (Raise ValueError, w).
Proof.
  intros Hn. rewrite initialize_dispatch. unfold EpsilonGreedy.initialize.
  cbv beta iota delta [bind lift ret set_counts set_values np_zeros].
  destruct (Z.ltb_spec n_arms 0); [reflexivity | lia].
Qed.


End RunningMean.

Section Counting.
Context {G : Type} `{NumpyRandom G}.



(** C7. For each of the five strategy classes and every [K >= 1], whatever
    the state before, [initialize(K)] succeeds and leaves [counts] and
    [values] as arrays of exactly [K] zeros; class, hyperparameter and
    generator are untouched. *)
Theorem initialize_zeros (K : Z) (w : world G) :
  (1 <= K)%Z ->
  exists w',
    initialize K w = (Ok tt, w')
    /\ counts (self w') = repeat 0%Z (Z.to_nat K)
    /\ values (self w') = repeat 0 (Z.to_nat K)
    /\ len (counts (self w')) = K /\ len (values (self w')) = K
    /\ klass (self w') = klass (self w) /\ rng w' = rng w.
Proof.
  intros HK. eexists. split; [apply initialize_run; lia|].
  cbn [self counts values klass rng]. unfold len. rewrite !repeat_length.
  repeat split; lia.
Qed.
End Counting.


Lemma initialize_zeros_witness :
  exists w',
    initialize 3 (tape_world (Softmax.__init__ 1 [5%Z] [2; 7]) [4%Z]) = (Ok tt, w')
    /\ counts (self w') = repeat 0%Z (Z.to_nat 3)
    /\ values (self w') = repeat 0 (Z.to_nat 3)
    /\ len (counts (self w')) = 3%Z /\ len (values (self w')) = 3%Z
    /\ klass (self w') = klass (self (tape_world (Softmax.__init__ 1 [5%Z] [2; 7]) [4%Z]))
    /\ rng w' = rng (tape_world (Softmax.__init__ 1 [5%Z] [2; 7]) [4%Z]).
Proof.
  apply (initialize_zeros 3 (tape_world (Softmax.__init__ 1 [5%Z] [2; 7]) [4%Z])).
  lia.
Defined.

(** ** select_arm only reads the object *)

Section Frame.
Context {G : Type} `{NumpyRandom G}.

Lemma reads_only_ret {A} (a : A) : reads_only (G := G) (ret a).
Proof. intros w. reflexivity. Qed.

Lemma reads_only_lift {A} (r : result A) : reads_only (G := G) (lift r).
Proof. intros w. reflexivity. Qed.

Lemma reads_only_bind {A B} (c : M G A) (k : A -> M G B) :
  reads_only c -> (forall a, reads_only (k a)) -> reads_only (bind c k).
Proof.
  intros Hc Hk w. unfold bind. specialize (Hc w).
  destruct (c w) as [[a | e | x] w1]; cbn [snd] in *; try assumption.
  rewrite Hk. assumption.
Qed.

Lemma reads_only_get_counts : reads_only (G := G) get_counts.
Proof. intros w. reflexivity. Qed.

Lemma reads_only_get_values : reads_only (G := G) get_values.
Proof. intros w. reflexivity. Qed.

Lemma reads_only_np_random : reads_only np_random.
Proof. intros w. unfold np_random. destruct (sample_float (rng w)). reflexivity. Qed.

Lemma reads_only_np_randint lo hi : reads_only (np_randint lo hi).
Proof.
  intros w. unfold np_randint.
  destruct (lo <? hi)%Z; [destruct (sample_int lo hi (rng w))|]; reflexivity.
Qed.

Lemma reads_only_np_multinomial1 pvals : reads_only (np_multinomial1 pvals).
Proof.
  intros w. unfold np_multinomial1.
  destruct (pvals_ok pvals); [destruct (sample_category pvals (rng w))|]; reflexivity.
Qed.

Lemma reads_only_collect {A} (f : nat -> M G A) l :
  (forall i, reads_only (f i)) -> reads_only (collect l f).
Proof.
  intros Hf. induction l as [|i l IH]; cbn [collect].
  - apply reads_only_ret.
  - apply reads_only_bind; [apply Hf|]. intros a.
    apply reads_only_bind; [apply IH|]. intros r. apply reads_only_ret.
Qed.

Ltac reads :=
  repeat first
    [ apply reads_only_ret | apply reads_only_lift
    | apply reads_only_get_counts | apply reads_only_get_values
    | apply reads_only_np_random | apply reads_only_np_randint
    | apply reads_only_np_multinomial1
    | apply reads_only_collect; intros ?
    | apply reads_only_bind; [|intros ?]
    | match goal with
      | |- reads_only (if ?b then _ else _) => destruct b
      | |- reads_only (match ?x with Some _ => _ | None => _ end) => destruct x
      end ].

Lemma EpsilonGreedy_select_arm_reads epsilon :
  reads_only (EpsilonGreedy.select_arm epsilon).
Proof. unfold EpsilonGreedy.select_arm. reads. Qed.

Lemma AnnealingEpsilonGreedy_select_arm_reads :
  reads_only AnnealingEpsilonGreedy.select_arm.
Proof. unfold AnnealingEpsilonGreedy.select_arm. reads. Qed.

Lemma Softmax_select_arm_reads temperature :
  reads_only (Softmax.select_arm temperature).
Proof. unfold Softmax.select_arm, Softmax.categorical_draw. reads. Qed.

Lemma AnnealingSoftmax_select_arm_reads :
  reads_only AnnealingSoftmax.select_arm.
Proof. unfold AnnealingSoftmax.select_arm, Softmax.categorical_draw. reads. Qed.

Lemma UCB_select_arm_reads : reads_only (G := G) UCB.select_arm.
Proof. unfold UCB.select_arm, UCB.ucb_value. reads. Qed.

Lemma select_arm_reads : reads_only select_arm.
Proof.
  intros w. unfold select_arm. destruct (klass (self w)).
  - apply EpsilonGreedy_select_arm_reads.
  - apply AnnealingEpsilonGreedy_select_arm_reads.
  - apply Softmax_select_arm_reads.
  - apply AnnealingSoftmax_select_arm_reads.
  - apply UCB_select_arm_reads.
Qed.

(** C8. For each of the five strategy classes and every state, reachable or
    not, a call to [select_arm] leaves the object (class and hyperparameter,
    [counts], [values]) exactly as it was, whether it returns an arm or
    fails, and so does any number of calls in a row; only the generator
    advances. *)
Theorem select_arm_reads_only (w : world G) :
  self (snd (select_arm w)) = self w
  /\ forall n, self (snd (selections n w)) = self w.
Proof.
  split; [apply select_arm_reads|].
  intros n. revert w. fold (reads_only (selections n)).
  induction n as [|n IH]; cbn [selections].
  - apply reads_only_ret.
  - apply reads_only_bind; [apply select_arm_reads|]. intros arm.
    apply reads_only_bind; [apply IH|]. intros arms. apply reads_only_ret.
Qed.
End Frame.

(** ** The annealing schedule *)

Lemma schedule_run t :
  (1 <= t)%Z ->
  0 < ln (IZR t + 1 / 10000000)
  /\ schedule t = Ok (1 / ln (IZR t + 1 / 10000000)).
Proof.
  intros Ht. apply IZR_le in Ht.
  assert (Hln : 0 < ln (IZR t + 1 / 10000000)).
  { rewrite <- ln_1. apply ln_increasing; lra. }
  split; [assumption|].
  unfold schedule. rewrite np_log_ok by lra. cbn [rbind].
  apply np_div_ok. lra.
Qed.

Lemma schedule_first :
  exists epsilon, schedule 1 = Ok epsilon /\ 1 < epsilon.
Proof.
  destruct (schedule_run 1) as [Hp Hs]; [lia|].
  eexists. split; [exact Hs|].
  assert (Hlt : ln (1 + 1 / 10000000) < 1 / 10000000).
  { rewrite <- (ln_exp (1 / 10000000)) at 2.
    apply ln_increasing; [lra|]. apply exp_ineq1. lra. }
  set (a := ln (1 + 1 / 10000000)) in *.
  apply Rmult_lt_reg_r with a; [assumption|].
  unfold Rdiv. rewrite Rmult_assoc, Rinv_l by lra. lra.
Qed.

(** ** argmax *)

Lemma argmax_scan_first_max t : forall pre best_i,
  first_max pre best_i ->
  first_max (pre ++ t) (argmax_scan Rgtb best_i (nth best_i pre 0) (length pre) t).
Proof.
  induction t as [|x t IH]; intros pre best_i Hbest.
  - rewrite app_nil_r. exact Hbest.
  - destruct Hbest as (Hlt & Hmax & Hfirst). cbn [argmax_scan].
    replace (pre ++ x :: t) with ((pre ++ [x]) ++ t) by (rewrite <- app_assoc; reflexivity).
    assert (Hlen : length (pre ++ [x]) = S (length pre))
      by (rewrite length_app; cbn [length]; lia).
    destruct (Rgtb_spec x (nth best_i pre 0)) as [Hgt | Hle].
    + specialize (IH (pre ++ [x]) (length pre)).
      rewrite Hlen in IH. rewrite nth_middle in IH. apply IH.
      split; [lia|]. rewrite nth_middle. split.
      * intros j Hj. destruct (Nat.eq_dec j (length pre)) as [-> | Hne].
        -- rewrite nth_middle. lra.
        -- rewrite app_nth1 by lia. specialize (Hmax j). assert (j < length pre)%nat by lia.
           specialize (Hmax H). lra.
      * intros j Hj. rewrite app_nth1 by lia. specialize (Hmax j Hj). lra.
    + specialize (IH (pre ++ [x]) best_i).
      rewrite Hlen in IH. rewrite app_nth1 in IH by assumption. apply IH.
      split; [lia|]. rewrite app_nth1 by assumption. split.
      * intros j Hj. destruct (Nat.eq_dec j (length pre)) as [-> | Hne].
        -- rewrite nth_middle. lra.
        -- rewrite app_nth1 by lia. apply Hmax. lia.
      * intros j Hj. rewrite app_nth1 by lia. apply Hfirst. assumption.
Qed.

Lemma np_argmax_first_max a :
  a <> [] -> exists i, np_argmax a = Ok (Z.of_nat i) /\ first_max a i.
Proof.
  destruct a as [|x t]; [congruence|]. intros _.
  exists (argmax_scan Rgtb 0 x 1 t). split; [reflexivity|].
  apply (argmax_scan_first_max t [x] 0%nat).
  split; [cbn; lia|]. split.
  - intros [|j] Hj; cbn in *; [lra | lia].
  - intros j Hj. lia.
Qed.

Lemma first_max_unique a i j : first_max a i -> first_max a j -> i = j.
Proof.
  intros (Hi & Hmi & Hfi) (Hj & Hmj & Hfj).
  destruct (Nat.lt_trichotomy i j) as [Hlt | [Heq | Hgt]]; [|assumption|].
  - specialize (Hfj i Hlt). specialize (Hmi j Hj). lra.
  - specialize (Hfi j Hgt). specialize (Hmj i Hi). lra.
Qed.

(** ** Epsilon-greedy selection *)

Section Greedy.
Context {G : Type} `{NumpyRandom G}.

Lemma np_randint_run lo hi (w : world G) :
  (lo < hi)%Z ->
  np_randint lo hi w =
  (Ok (fst (sample_int lo hi (rng w))), drawn w (snd (sample_int lo hi (rng w)))).
Proof.
  intros Hlt. unfold np_randint.
  destruct (Z.ltb_spec lo hi); [|lia].
  destruct (sample_int lo hi (rng w)). reflexivity.
Qed.

Lemma EpsilonGreedy_exploit epsilon (w : world G) :
  fst (sample_float (rng w)) > epsilon ->
  EpsilonGreedy.select_arm epsilon w =
  (np_argmax (values (self w)), drawn w (snd (sample_float (rng w)))).
Proof.
  intros Hz. unfold EpsilonGreedy.select_arm, bind, np_random.
  destruct (sample_float (rng w)) as [z g]. cbn [fst snd] in *.
  rewrite Rgtb_true by assumption.
  unfold get_values, lift, drawn. cbn [self values].
  destruct (np_argmax (values (self w))); reflexivity.
Qed.

Lemma EpsilonGreedy_explore epsilon (w : world G) :
  fst (sample_float (rng w)) <= epsilon ->
  EpsilonGreedy.select_arm epsilon w =
  np_randint 0 (len (values (self w))) (drawn w (snd (sample_float (rng w)))).
Proof.
  intros Hz. unfold EpsilonGreedy.select_arm, bind, np_random.
  destruct (sample_float (rng w)) as [z g]. cbn [fst snd] in *.
  rewrite Rgtb_false by assumption.
  unfold get_values, drawn. cbn [self values].
  destruct (np_randint 0 (len (values (self w))) _) as [[a | e | x] w1]; reflexivity.
Qed.

(** C3. For [EpsilonGreedy] with [epsilon = 0] and at least one arm: when
    the uniform draw is greater than 0, [select_arm] returns the index of
    the first occurrence of the maximum of [values]; the draw of
    [np.random.random()] ranges over [[0, 1)], and when it is exactly 0 the
    test [z > epsilon] fails and [select_arm] returns the draw of
    [np.random.randint(0, len(values))] instead. *)
Theorem EpsilonGreedy_zero_epsilon (w : world G) :
  klass (self w) = EpsilonGreedy 0 ->
  values (self w) <> [] ->
  let z := fst (sample_float (rng w)) in
  let w1 := drawn w (snd (sample_float (rng w))) in
  (0 < z ->
   exists i, select_arm w = (Ok (Z.of_nat i), w1) /\ first_max (values (self w)) i)
  /\ (z = 0 ->
      select_arm w =
      (Ok (fst (sample_int 0 (len (values (self w))) (rng w1))),
       drawn w (snd (sample_int 0 (len (values (self w))) (rng w1))))).
Proof.
  intros Hk Hne z w1. unfold select_arm. rewrite Hk. split.
  - intros Hz. destruct (np_argmax_first_max _ Hne) as (i & Harg & Hfirst).
    exists i. split; [|assumption].
    rewrite EpsilonGreedy_exploit by exact Hz. now rewrite Harg.
  - intros Hz. rewrite EpsilonGreedy_explore by (fold z; lra).
    fold w1. rewrite np_randint_run; [reflexivity|].
    unfold len. cbn [drawn self]. destruct (values (self w)); [congruence | cbn [length]; lia].
Qed.
End Greedy.

Lemma EpsilonGreedy_zero_epsilon_witness :
  fst (sample_float (rng greedy_world)) = 5 / 8
  /\ select_arm greedy_world
     = (Ok 1%Z, tape_world (EpsilonGreedy.__init__ 0 [2%Z; 3%Z] [1 / 2; 3 / 4]) [1%Z]).
Proof.
  assert (Hz : fst (sample_float (rng greedy_world)) = 5 / 8) by reflexivity.
  assert (Hk : klass (self greedy_world) = EpsilonGreedy 0) by reflexivity.
  assert (Hv : values (self greedy_world) <> []) by discriminate.
  split; [exact Hz|].
  destruct (proj1 (EpsilonGreedy_zero_epsilon greedy_world Hk Hv)) as (i & Hrun & Hi).
  - rewrite Hz. lra.
  - assert (H1 : first_max (values (self greedy_world)) 1).
    { split; [cbn; lia|]. split.
      - intros [|[|j]] Hj; cbn in *; try lra; lia.
      - intros [|j] Hj; cbn; [lra | lia]. }
    rewrite (first_max_unique _ _ _ Hi H1) in Hrun. exact Hrun.
Defined.

(** Not every draw gives the maximum (C3 as the specification words it): with
    [epsilon = 0], [values = [0, 1]] and a uniform draw of exactly 0,
    [select_arm] returns the [randint] draw, here arm 0, while the first
    maximum of [values] is at index 1. *)
Lemma EpsilonGreedy_zero_epsilon_counterexample :
  klass (self unlucky_world) = EpsilonGreedy 0
  /\ fst (sample_float (rng unlucky_world)) = 0
  /\ fst (select_arm unlucky_world) = Ok 0%Z
  /\ first_max (values (self unlucky_world)) 1
  /\ ~ first_max (values (self unlucky_world)) 0.
Proof.
  assert (Hz : fst (sample_float (rng unlucky_world)) = 0).
  { cbn. lra. }
  split; [reflexivity|]. split; [exact Hz|]. split; [|split].
  - unfold select_arm. cbn [unlucky_world tape_world self klass EpsilonGreedy.__init__].
    fold unlucky_world.
    rewrite EpsilonGreedy_explore by (rewrite Hz; lra).
    rewrite np_randint_run by (cbn; lia). reflexivity.
  - cbn [unlucky_world tape_world self values EpsilonGreedy.__init__].
    split; [cbn; lia|]. split.
    + intros [|[|j]] Hj; cbn in *; try lra; lia.
    + intros [|j] Hj; cbn; [lra | lia].
  - cbn [unlucky_world tape_world self values EpsilonGreedy.__init__].
    intros (_ & Hmax & _).
    specialize (Hmax 1%nat). cbn in Hmax. assert (1 <= 0) by (apply Hmax; lia). lra.
Qed.

(** ** Sums of play counts *)

Lemma total_repeat_zero n : total (repeat 0%Z n) = 0%Z.
Proof.
  induction n as [|n IH]; [reflexivity|].
  cbn [repeat]. change (total (0%Z :: repeat 0%Z n)) with (0 + total (repeat 0%Z n))%Z.
  rewrite IH. reflexivity.
Qed.

Lemma total_nonneg c : Forall (fun x => (0 <= x)%Z) c -> (0 <= total c)%Z.
Proof.
  induction 1 as [|x c Hx _ IH]; [cbn; lia|].
  change (total (x :: c)) with (x + total c)%Z. lia.
Qed.

Lemma np_sum_from c : forall acc,
  Forall (fun x => (0 <= x)%Z) c ->
  (0 <= acc)%Z -> (acc + total c < 9223372036854775808)%Z ->
  fold_left (fun a x => wrap64 (a + x)) c acc = (acc + total c)%Z.
Proof.
  induction c as [|x c IH]; intros acc Hc Hacc Hb.
  - cbn. lia.
  - inversion Hc as [|? ? Hx Hrest]; subst.
    change (total (x :: c)) with (x + total c)%Z in *.
    pose proof (total_nonneg c Hrest).
    cbn [fold_left]. rewrite wrap64_small by lia.
    rewrite IH; try assumption; lia.
Qed.

Lemma np_sum_total c :
  Forall (fun x => (0 <= x)%Z) c -> (total c < 9223372036854775808)%Z ->
  np_sum c = total c.
Proof. intros Hc Hb. unfold np_sum. rewrite np_sum_from; try assumption; lia. Qed.



Section Annealing.
Context {G : Type} `{NumpyRandom G}.

Lemma AnnealingEpsilonGreedy_explore epsilon (w : world G) :
  schedule (wrap64 (np_sum (counts (self w)) + 1)) = Ok epsilon ->
  fst (sample_float (rng w)) <= epsilon ->
  AnnealingEpsilonGreedy.select_arm w =
  np_randint 0 (len (values (self w))) (drawn w (snd (sample_float (rng w)))).
Proof.
  intros Hs Hz. unfold AnnealingEpsilonGreedy.select_arm, bind, get_counts, lift.
  rewrite Hs. unfold np_random.
  destruct (sample_float (rng w)) as [z g]. cbn [fst snd] in *.
  rewrite Rgtb_false by assumption.
  unfold get_values, drawn. cbn [self values].
  destruct (np_randint 0 (len (values (self w))) _) as [[a | e | x] w1]; reflexivity.
Qed.

(** C10. For [AnnealingEpsilonGreedy] and [K >= 1]: in the state left by
    [initialize(K)] the total is [t = 1], the computed epsilon
    [1 / ln(1 + 1e-7)] is greater than 1, hence greater than any draw of
    [np.random.random()], and [select_arm] returns the draw of
    [np.random.randint(0, K)], an arm index in [[0, K)], whatever the
    generator delivers; the branch of the maximum value is not taken. *)
Theorem AnnealingEpsilonGreedy_first_call (K : Z) (w : world G) :
  (1 <= K)%Z ->
  klass (self w) = AnnealingEpsilonGreedy ->
  exists w0 epsilon,
    initialize K w = (Ok tt, w0)
    /\ wrap64 (np_sum (counts (self w0)) + 1) = 1%Z
    /\ schedule 1 = Ok epsilon
    /\ 1 < epsilon
    /\ fst (sample_float (rng w0)) < epsilon
    /\ let g := snd (sample_float (rng w0)) in
       select_arm w0 = (Ok (fst (sample_int 0 K g)), drawn w0 (snd (sample_int 0 K g)))
       /\ (0 <= fst (sample_int 0 K g) < K)%Z.
Proof.
  intros HK Hk.
  destruct schedule_first as (epsilon & Hs & Heps).
  eexists. exists epsilon. split; [apply initialize_run; lia|].
  set (w0 := {| self := _; rng := rng w |}).
  assert (Ht : wrap64 (np_sum (counts (self w0)) + 1) = 1%Z).
  { cbn [w0 self counts]. rewrite np_sum_total.
    - rewrite total_repeat_zero. reflexivity.
    - apply Forall_forall. intros x Hx. apply repeat_spec in Hx. lia.
    - rewrite total_repeat_zero. lia. }
  pose proof (sample_float_range (rng w0)) as Hz.
  split; [exact Ht|]. split; [exact Hs|]. split; [exact Heps|]. split; [lra|].
  cbv zeta. split; [|apply sample_int_range; lia].
  unfold select_arm. cbn [w0 self klass]. rewrite Hk. fold w0.
  rewrite (AnnealingEpsilonGreedy_explore epsilon) by (rewrite ?Ht; try assumption; lra).
  assert (Hlen : len (values (self w0)) = K).
  { cbn [w0 self values]. unfold len. rewrite repeat_length. lia. }
  rewrite Hlen. rewrite np_randint_run by (cbn; lia). reflexivity.
Qed.
End Annealing.

Lemma AnnealingEpsilonGreedy_first_call_witness :
  exists w0 epsilon,
    initialize 3 (tape_world (AnnealingEpsilonGreedy.__init__ [] []) [7%Z; 5%Z]) = (Ok tt, w0)
    /\ wrap64 (np_sum (counts (self w0)) + 1) = 1%Z
    /\ schedule 1 = Ok epsilon
    /\ 1 < epsilon
    /\ fst (sample_float (rng w0)) < epsilon
    /\ let g := snd (sample_float (rng w0)) in
       select_arm w0 = (Ok (fst (sample_int 0 3 g)), drawn w0 (snd (sample_int 0 3 g)))
       /\ (0 <= fst (sample_int 0 3 g) < 3)%Z.
Proof.
  apply (AnnealingEpsilonGreedy_first_call 3
           (tape_world (AnnealingEpsilonGreedy.__init__ [] []) [7%Z; 5%Z])).
  - lia.
  - reflexivity.
Defined.

(** ** UCB1 *)

Lemma find_seq_some f : forall n s k,
  find f (seq s n) = Some k ->
  (s <= k < s + n)%nat /\ f k = true /\ forall j, (s <= j < k)%nat -> f j = false.
Proof.
  induction n as [|n IH]; intros s k Hfind; cbn [seq find] in Hfind; [discriminate|].
  destruct (f s) eqn:Hfs.
  - inversion Hfind; subst. repeat split; try lia; try assumption.
  - destruct (IH _ _ Hfind) as (Hr & Hfk & Hbefore).
    repeat split; try lia; try assumption.
    intros j Hj. destruct (Nat.eq_dec j s) as [-> | Hne]; [assumption|].
    apply Hbefore. lia.
Qed.

Lemma find_seq_none f : forall n s,
  find f (seq s n) = None -> forall j, (s <= j < s + n)%nat -> f j = false.
Proof.
  induction n as [|n IH]; intros s Hfind j Hj; [lia|].
  cbn [seq find] in Hfind. destruct (f s) eqn:Hfs; [discriminate|].
  destruct (Nat.eq_dec j s) as [-> | Hne]; [assumption|].
  apply (IH _ Hfind). lia.
Qed.


Lemma range_len {A} (a : list A) : range (len a) = seq 0 (length a).
Proof. unfold range, len. now rewrite Nat2Z.id. Qed.

Lemma unvisited_some c arm :
  UCB.unvisited c (len c) = Some arm ->
  (arm < length c)%nat /\ nth arm c 0%Z = 0%Z
  /\ forall j, (j < arm)%nat -> nth j c 0%Z <> 0%Z.
Proof.
  unfold UCB.unvisited. rewrite range_len. intros Hfind.
  destruct (find_seq_some _ _ _ _ Hfind) as (Hr & Hz & Hbefore).
  split; [lia|]. split; [now apply Z.eqb_eq|].
  intros j Hj. apply Z.eqb_neq. apply Hbefore. lia.
Qed.

Lemma unvisited_none c :
  UCB.unvisited c (len c) = None -> Forall (fun x => x <> 0%Z) c.
Proof.
  unfold UCB.unvisited. rewrite range_len. intros Hfind.
  apply Forall_forall. intros x Hx.
  destruct (In_nth _ _ 0%Z Hx) as (j & Hj & <-).
  apply Z.eqb_neq. apply (find_seq_none _ _ _ Hfind). lia.
Qed.


Lemma unvisited_zero c :
  In 0%Z c -> exists arm, UCB.unvisited c (len c) = Some arm.
Proof.
  intros Hin. destruct (UCB.unvisited c (len c)) as [arm|] eqn:Hu; [now exists arm|].
  pose proof (unvisited_none c Hu) as Hall.
  rewrite Forall_forall in Hall. now destruct (Hall _ Hin).
Qed.

Lemma map_nth_combine {A B C} (f : A -> B -> C) da db : forall (a : list A) (b : list B),
  (length a <= length b)%nat ->
  map (fun i => f (nth i a da) (nth i b db)) (seq 0 (length a))
  = map (fun ab => f (fst ab) (snd ab)) (combine a b).
Proof.
  induction a as [|x a IH]; intros [|y b] Hlen; cbn [length] in *; try lia; try reflexivity.
  cbn [seq map combine fst snd nth]. f_equal.
  rewrite <- seq_shift, map_map. cbn [nth]. apply IH. lia.
Qed.

Section UCB1.
Context {G : Type}.

Lemma collect_run {A} (f : nat -> M G A) (g : nat -> A) (w : world G) l :
  (forall i, In i l -> f i w = (Ok (g i), w)) ->
  collect l f w = (Ok (map g l), w).
Proof.
  induction l as [|i l IH]; intros Hf; [reflexivity|].
  cbn [collect map]. unfold bind at 1. rewrite Hf by (left; reflexivity).
  unfold bind at 1. rewrite IH by (intros j Hj; apply Hf; right; exact Hj).
  reflexivity.
Qed.

Lemma ucb_value_run n arm (w : world G) :
  (1 <= n)%Z ->
  (1 <= nth arm (counts (self w)) 0)%Z ->
  (arm < length (values (self w)))%nat ->
  UCB.ucb_value n arm w =
  (Ok (ucb_score n (nth arm (counts (self w)) 0%Z) (nth arm (values (self w)) 0)), w).
Proof.
  intros Hn Hc Harm. unfold UCB.ucb_value, bind, lift, get_counts, get_values, ret.
  apply IZR_le in Hn. apply IZR_le in Hc.
  assert (Hln : 0 <= ln (IZR n)).
  { destruct (Req_dec (IZR n) 1) as [-> | Hne]; [rewrite ln_1; lra|].
    rewrite <- ln_1. left. apply ln_increasing; lra. }
  rewrite np_log_ok by lra.
  rewrite np_div_ok by lra.
  rewrite np_sqrt_ok.
  - unfold getitem. rewrite position_of_nat by assumption. reflexivity.
  - apply Rmult_le_pos; [lra|]. left. apply Rinv_0_lt_compat. lra.
Qed.

Lemma UCB_visit arm (w : world G) :
  UCB.unvisited (counts (self w)) (len (counts (self w))) = Some arm ->
  UCB.select_arm w = (Ok (Z.of_nat arm), w).
Proof.
  intros Hu. unfold UCB.select_arm, bind, get_counts. now rewrite Hu.
Qed.

Lemma UCB_exploit (w : world G) :
  counts (self w) <> [] ->
  Forall (fun x => (1 <= x)%Z) (counts (self w)) ->
  length (values (self w)) = length (counts (self w)) ->
  (total (counts (self w)) < 9223372036854775808)%Z ->
  exists i,
    UCB.select_arm w = (Ok (Z.of_nat i), w)
    /\ first_max (ucb_scores (total (counts (self w))) (counts (self w)) (values (self w))) i.
Proof.
  intros Hne Hall Hlen Hb.
  assert (Hnonneg : Forall (fun x => (0 <= x)%Z) (counts (self w))).
  { eapply Forall_impl; [|exact Hall]. cbv beta. intros; lia. }
  assert (Hu : UCB.unvisited (counts (self w)) (len (counts (self w))) = None).
  { destruct (UCB.unvisited _ _) as [arm|] eqn:Hu; [|reflexivity].
    destruct (unvisited_some _ _ Hu) as (Harm & Hz & _).
    rewrite Forall_forall in Hall.
    specialize (Hall _ (nth_In _ 0%Z Harm)). lia. }
  assert (Hn : (1 <= total (counts (self w)))%Z).
  { destruct (counts (self w)) as [|x c]; [congruence|].
    inversion Hall as [|? ? Hx _]; subst.
    inversion Hnonneg as [|? ? _ Hrest]; subst.
    change (total (x :: c)) with (x + total c)%Z.
    pose proof (total_nonneg c Hrest). lia. }
  set (scores := ucb_scores (total (counts (self w))) (counts (self w)) (values (self w))).
  assert (Hscores : scores <> []).
  { unfold scores, ucb_scores. destruct (counts (self w)); [congruence|].
    destruct (values (self w)); [discriminate|]. discriminate. }
  destruct (np_argmax_first_max scores Hscores) as (i & Harg & Hfirst).
  exists i. split; [|exact Hfirst].
  unfold UCB.select_arm, bind at 1, get_counts at 1. rewrite Hu.
  unfold bind at 1, get_counts at 1.
  rewrite np_sum_total by assumption.
  unfold bind.
  rewrite (collect_run _ (fun arm => ucb_score (total (counts (self w)))
                                      (nth arm (counts (self w)) 0%Z)
                                      (nth arm (values (self w)) 0))).
  - rewrite range_len.
    rewrite (map_nth_combine (ucb_score (total (counts (self w)))) 0%Z 0) by lia.
    unfold lift. fold (ucb_scores (total (counts (self w))) (counts (self w)) (values (self w))).
    fold scores. now rewrite Harg.
  - intros arm Harm. rewrite range_len in Harm. apply in_seq in Harm.
    apply ucb_value_run; try assumption; [|lia].
    rewrite Forall_forall in Hall. apply Hall. apply nth_In. lia.
Qed.
End UCB1.



Section UCBRounds.
Context {G : Type} `{NumpyRandom G}.


Lemma ucb_value_zero_free n arm (w : world G) :
  nth arm (counts (self w)) 0%Z <> 0%Z ->
  exists r, UCB.ucb_value n arm w = (r, w) /\ r <> NonReal DivideByZero.
Proof.
  intros Hc. unfold UCB.ucb_value, bind, lift, get_counts, get_values, ret.
  unfold np_log. destruct (Rgtb (IZR n) 0);
    [|eexists; split; [reflexivity | discriminate]].
  rewrite np_div_ok by (apply not_0_IZR; assumption).
  unfold np_sqrt. destruct (Rgtb 0 _);
    [eexists; split; [reflexivity | discriminate]|].
  unfold getitem.
  destruct (position_cases (length (values (self w))) (Z.of_nat arm)) as [[k ->] | ->];
    cbn [rbind]; eexists; split; try reflexivity; discriminate.
Qed.

Lemma collect_zero_free {A} (f : nat -> M G A) (w : world G) l :
  (forall i, In i l -> exists r, f i w = (r, w) /\ r <> NonReal DivideByZero) ->
  exists r, collect l f w = (r, w) /\ r <> NonReal DivideByZero.
Proof.
  induction l as [|i l IH]; intros Hf;
    [eexists; split; [reflexivity | discriminate]|].
  cbn [collect]. unfold bind at 1.
  destruct (Hf i (or_introl eq_refl)) as (r & -> & Hne).
  destruct r as [a | e | x];
    [| eexists; split; [reflexivity | discriminate]
     | eexists; split; [reflexivity | congruence]].
  unfold bind at 1.
  destruct IH as (r & -> & Hne'); [intros k Hk; apply Hf; right; exact Hk|].
  destruct r as [r | e | x];
    [ eexists; split; [reflexivity | discriminate]
    | eexists; split; [reflexivity | discriminate]
    | eexists; split; [reflexivity | congruence]].
Qed.

Lemma UCB_zero_free (w : world G) :
  fst (UCB.select_arm w) <> NonReal DivideByZero.
Proof.
  unfold UCB.select_arm, bind at 1, get_counts at 1.
  destruct (UCB.unvisited _ _) eqn:Hu; [discriminate|].
  unfold bind at 1, get_counts at 1. unfold bind.
  destruct (collect_zero_free (UCB.ucb_value (np_sum (counts (self w)))) w
              (range (len (counts (self w))))) as (r & -> & Hne).
  - intros i Hi. apply ucb_value_zero_free.
    rewrite range_len in Hi. apply in_seq in Hi.
    pose proof (unvisited_none _ Hu) as Hall. rewrite Forall_forall in Hall.
    apply Hall. apply nth_In. lia.
  - destruct r as [r | e | x]; cbn [fst]; [| discriminate | congruence].
    unfold lift. cbn [fst]. unfold np_argmax, np_argmax_by.
    destruct r; discriminate.
Qed.
End UCBRounds.

Section UCBClaims.
Context {G : Type} `{NumpyRandom G}.


(** C4. In [UCB.select_arm] the division by [counts[arm]] never divides by
    zero: whenever some arm has a zero count, the first loop returns the
    first such arm; the bonus loop runs only when no count is zero, that
    is, for play counts (which are never negative), only when every arm
    has at least one play. *)
Theorem UCB_bonus_guarded (w : world G) :
  let c := counts (self w) in
  fst (UCB.select_arm w) <> NonReal DivideByZero
  /\ (In 0%Z c ->
      exists arm,
        UCB.unvisited c (len c) = Some arm
        /\ nth arm c 0%Z = 0%Z
        /\ (forall j, (j < arm)%nat -> nth j c 0%Z <> 0%Z)
        /\ UCB.select_arm w = (Ok (Z.of_nat arm), w))
  /\ (UCB.unvisited c (len c) = None ->
      UCB.select_arm w
      = (ucb_values <- collect (range (len c)) (UCB.ucb_value (np_sum c)) ;;
         lift (np_argmax ucb_values)) w
      /\ Forall (fun x => x <> 0%Z) c
      /\ (Forall (fun x => (0 <= x)%Z) c -> Forall (fun x => (1 <= x)%Z) c)).
Proof.
  intros c. split; [apply UCB_zero_free|]. split.
  - intros Hin. destruct (unvisited_zero c Hin) as (arm & Hu).
    destruct (unvisited_some c arm Hu) as (_ & Hz & Hbefore).
    exists arm. repeat split; try assumption. now apply UCB_visit.
  - intros Hu. split; [|split].
    + unfold UCB.select_arm, bind at 1, get_counts at 1. fold c. rewrite Hu.
      reflexivity.
    + now apply unvisited_none.
    + intros Hnonneg. pose proof (unvisited_none c Hu) as Hnz.
      rewrite Forall_forall in *. intros x Hx.
      specialize (Hnz x Hx). specialize (Hnonneg x Hx). lia.
Qed.
End UCBClaims.


Lemma UCB_bonus_guarded_witness :
  (exists arm,
      UCB.unvisited [2%Z; 0%Z; 0%Z] (len [2%Z; 0%Z; 0%Z]) = Some arm
      /\ nth arm [2%Z; 0%Z; 0%Z] 0%Z = 0%Z
      /\ (forall j, (j < arm)%nat -> nth j [2%Z; 0%Z; 0%Z] 0%Z <> 0%Z)
      /\ UCB.select_arm (tape_world (UCB.__init__ [2%Z; 0%Z; 0%Z] [1; 0; 0]) [])
         = (Ok (Z.of_nat arm), tape_world (UCB.__init__ [2%Z; 0%Z; 0%Z] [1; 0; 0]) []))
  /\ Forall (fun x => (1 <= x)%Z) [2%Z; 1%Z].
Proof.
  split.
  - apply (proj1 (proj2 (UCB_bonus_guarded
                           (tape_world (UCB.__init__ [2%Z; 0%Z; 0%Z] [1; 0; 0]) [])))).
    cbn. tauto.
  - apply (proj2 (proj2 (UCB_bonus_guarded
                           (tape_world (UCB.__init__ [2%Z; 1%Z] [1; 0]) [])))).
    + reflexivity.
    + repeat constructor; lia.
Defined.

(** ** The harness: library functions *)

Lemma fold_left_Rplus a : forall acc, fold_left Rplus a acc = acc + Rsum a.
Proof.
  unfold Rsum. induction a as [|x a IH]; intros acc; cbn [fold_left fold_right].
  - lra.
  - rewrite IH. lra.
Qed.

Lemma np_sum_float_Rsum a : np_sum_float a = Rsum a.
Proof. unfold np_sum_float. rewrite fold_left_Rplus. lra. Qed.







(** ** The harness: the tables keep their shape *)

Lemma Forall_replace_nth {A} (P : A -> Prop) k v a :
  Forall P a -> ((k < length a)%nat -> P v) -> Forall P (replace_nth k v a).
Proof.
  revert k. induction a as [|x a IH]; intros [|k] Hall Hv; cbn [replace_nth];
    try assumption; inversion Hall; subst; constructor; try assumption.
  - apply Hv. cbn. lia.
  - apply IH; [assumption|]. intros Hk. apply Hv. cbn. lia.
Qed.

Lemma np_zeros2_shaped n h :
  (0 <= n)%Z -> (0 <= h)%Z ->
  exists zeros, np_zeros2 n h = Ok zeros /\ shaped (Z.to_nat n) (Z.to_nat h) zeros.
Proof.
  intros Hn Hh. unfold np_zeros2.
  destruct (Z.ltb_spec n 0), (Z.ltb_spec h 0); try lia. cbn [orb].
  eexists. split; [reflexivity|]. unfold shaped. cbn [nrows ncols cells].
  rewrite repeat_length. repeat split.
  apply Forall_forall. intros row Hrow. apply repeat_spec in Hrow. subst.
  apply repeat_length.
Qed.


Lemma setitem2_shaped n h a i j v : shaped n h a -> shaped n h (setitem2 a i j v).
Proof.
  intros (Hr & Hc & Hl & Hrows). unfold shaped, setitem2. cbn [nrows ncols cells].
  rewrite replace_nth_length. repeat split; try assumption.
  apply Forall_replace_nth; [assumption|]. intros Hi.
  rewrite replace_nth_length. rewrite Forall_forall in Hrows.
  apply Hrows. now apply nth_In.
Qed.


Section HarnessShape.
Context {G : Type} `{NumpyRandom G}.

Lemma for_invariant {S} (P : S -> Prop) (body : nat -> S -> M G S) l :
  (forall i s w s' w', body i s w = (Ok s', w') -> P s -> P s') ->
  forall s w s' w', for_ l body s w = (Ok s', w') -> P s -> P s'.
Proof.
  intros Hbody. induction l as [|i l IH]; intros s w s' w' Hrun Hs.
  - cbn [for_] in Hrun. inversion Hrun; subst. assumption.
  - cbn [for_] in Hrun. unfold bind in Hrun.
    destruct (body i s w) as [[s1 | e | x] w1] eqn:Hb; try discriminate.
    apply (IH s1 w1 s' w' Hrun). apply (Hbody _ _ _ _ _ Hb Hs).
Qed.

Lemma play_shaped n h arms sim t tables (w : world G) tables' w' :
  play arms sim t tables w = (Ok tables', w') ->
  both_shaped n h tables -> both_shaped n h tables'.
Proof.
  destruct tables as [chosen_arms rewards]. unfold play, bind.
  destruct (select_arm w) as [[arm | e | x] w1]; try discriminate.
  unfold lift. destruct (getitem _ arms arm) as [a | e | x]; try discriminate.
  destruct (draw a w1) as [[reward | e | x] w2]; try discriminate.
  destruct (update arm reward w2) as [[[] | e | x] w3]; try discriminate.
  unfold ret. intros Hrun [Hc Hr]. inversion Hrun; subst.
  split; cbn [fst snd] in *; apply setitem2_shaped; assumption.
Qed.

Lemma simulate_shaped arms num_simulations horizon n h tables (w : world G) tables' w' :
  simulate arms num_simulations horizon tables w = (Ok tables', w') ->
  both_shaped n h tables -> both_shaped n h tables'.
Proof.
  unfold simulate. apply for_invariant.
  intros sim s w0 s' w0' Hbody Hs. unfold bind in Hbody.
  destruct (initialize (len arms) w0) as [[[] | e | x] w1]; try discriminate.
  revert Hbody Hs. apply for_invariant.
  intros t s0 w2 s0' w2'. apply play_shaped.
Qed.

End HarnessShape.

(** ** Softmax draws *)

Lemma Rleb_true x y : x <= y -> Rleb x y = true.
Proof. intros Hxy. unfold Rleb. destruct (Rle_dec x y); [reflexivity | contradiction]. Qed.





Lemma Forall_removelast {A} (P : A -> Prop) a : Forall P a -> Forall P (removelast a).
Proof.
  induction 1 as [|y a Hy Ha IH]; [constructor|].
  destruct a as [|z a]; [constructor|].
  change (removelast (y :: z :: a)) with (y :: removelast (z :: a)).
  constructor; assumption.
Qed.


Lemma one_hot_after k n : forall s,
  (k < s)%nat ->
  map (fun i => if Nat.eqb i k then 1%Z else 0%Z) (seq s n) = repeat 0%Z n.
Proof.
  induction n as [|n IH]; intros s Hs; [reflexivity|].
  cbn [seq map repeat]. destruct (Nat.eqb_spec s k); [lia|].
  f_equal. apply IH. lia.
Qed.

Lemma one_hot_from n : forall s k,
  (s <= k < s + n)%nat ->
  map (fun i => if Nat.eqb i k then 1%Z else 0%Z) (seq s n)
  = repeat 0%Z (k - s) ++ 1%Z :: repeat 0%Z (s + n - S k).
Proof.
  induction n as [|n IH]; intros s k Hk; [lia|].
  cbn [seq map]. destruct (Nat.eqb_spec s k) as [-> | Hne].
  - replace (k - k)%nat with 0%nat by lia. cbn [repeat app]. f_equal.
    replace (k + S n - S k)%nat with n by lia.
    apply one_hot_after. lia.
  - rewrite IH by lia.
    replace (k - s)%nat with (S (k - S s)) by lia. cbn [repeat app].
    replace (S s + n - S k)%nat with (s + S n - S k)%nat by lia. reflexivity.
Qed.

Lemma argmax_scan_zeros best_i best i m l :
  argmax_scan Z.gtb best_i best i (repeat best m ++ l)
  = argmax_scan Z.gtb best_i best (i + m) l.
Proof.
  revert i. induction m as [|m IH]; intros i; cbn [repeat app argmax_scan].
  - now rewrite Nat.add_0_r.
  - rewrite Z.gtb_ltb, Z.ltb_irrefl. rewrite IH. f_equal. lia.
Qed.

Lemma argmax_scan_settled best_i i m :
  argmax_scan Z.gtb best_i 1%Z i (repeat 0%Z m) = best_i.
Proof.
  revert i. induction m as [|m IH]; intros i; cbn [repeat argmax_scan]; [reflexivity|].
  cbn. apply IH.
Qed.

Lemma np_argmax_int_one_hot n k :
  (k < n)%nat -> np_argmax_int (one_hot n k) = Ok (Z.of_nat k).
Proof.
  intros Hk. unfold np_argmax_int, one_hot. rewrite one_hot_from by lia.
  rewrite Nat.sub_0_r. destruct k as [|k]; cbn [repeat app np_argmax_by].
  - now rewrite argmax_scan_settled.
  - rewrite argmax_scan_zeros. cbn [argmax_scan]. cbn [Z.gtb Z.compare].
    now rewrite argmax_scan_settled.
Qed.

Section SoftmaxDraw.
Context {G : Type} `{NumpyRandom G}.


End SoftmaxDraw.

(** ** The harness returns *)

Lemma nth_le_total c : Forall (fun x => (0 <= x)%Z) c ->
  forall k, (0 <= nth k c 0 <= total c)%Z.
Proof.
  induction 1 as [|x c Hx Hc IH]; intros k.
  - destruct k; cbn; lia.
  - change (total (x :: c)) with (x + total c)%Z.
    pose proof (total_nonneg c Hc). destruct k as [|k]; cbn [nth]; [lia|].
    specialize (IH k). lia.
Qed.

Section SelectReturns.
Context {G : Type} `{NumpyRandom G}.

Lemma AnnealingEpsilonGreedy_exploit epsilon (w : world G) :
  schedule (wrap64 (np_sum (counts (self w)) + 1)) = Ok epsilon ->
  fst (sample_float (rng w)) > epsilon ->
  AnnealingEpsilonGreedy.select_arm w =
  (np_argmax (values (self w)), drawn w (snd (sample_float (rng w)))).
Proof.
  intros Hs Hz. unfold AnnealingEpsilonGreedy.select_arm, bind, get_counts, lift.
  rewrite Hs. unfold np_random.
  destruct (sample_float (rng w)) as [z g]. cbn [fst snd] in *.
  rewrite Rgtb_true by assumption.
  unfold get_values, drawn. cbn [self values].
  destruct (np_argmax (values (self w))); reflexivity.
Qed.



End SelectReturns.

Section HarnessReturns.
Context {G : Type} `{NumpyRandom G}.


Lemma ready_after_update K J k reward (w : world G) :
  ready K J (self w) -> (k < K)%nat ->
  ready K (J + 1) (self (after_update k reward w)).
Proof.
  intros (Hlc & Hlv & Hnonneg & Htot) Hk. unfold after_update, ready.
  cbn [self counts values]. rewrite !replace_nth_length.
  split; [assumption|]. split; [assumption|]. split.
  - apply Forall_replace_nth; [assumption|]. intros _.
    pose proof (nth_le_total _ Hnonneg k). lia.
  - rewrite total_replace_nth by lia. lia.
Qed.




End HarnessReturns.

Section HarnessClaims.
Context {G : Type} `{NumpyRandom G}.

End HarnessClaims.


(** ** Unchecked preconditions *)

Section Preconditions.
Context {G : Type} `{NumpyRandom G}.





Lemma select_arm_no_arm (w : world G) :
  counts (self w) = [] -> values (self w) = [] ->
  exists w', select_arm w = (Raise ValueError, w').
Proof.
  intros Hc Hv. unfold select_arm.
  assert (Hgreedy : forall c : M G Z,
    (forall epsilon,
       (fst (sample_float (rng w)) > epsilon ->
        c w = (np_argmax (values (self w)), drawn w (snd (sample_float (rng w)))))
       /\ (fst (sample_float (rng w)) <= epsilon ->
           c w = np_randint 0 (len (values (self w)))
                   (drawn w (snd (sample_float (rng w)))))
       -> exists w', c w = (Raise ValueError, w'))).
  { intros c epsilon [Hexploit Hexplore].
    destruct (Rgt_dec (fst (sample_float (rng w))) epsilon) as [Hgt | Hle].
    - rewrite Hexploit by assumption. rewrite Hv. eexists. reflexivity.
    - rewrite Hexplore by lra. rewrite Hv. eexists. reflexivity. }
  assert (Ht : wrap64 (np_sum (counts (self w)) + 1) = 1%Z) by (rewrite Hc; reflexivity).
  assert (Hdraw : exists w',
             Softmax.categorical_draw [] w = (Raise ValueError, w')).
  { unfold Softmax.categorical_draw, bind, np_multinomial1.
    assert (Hok : pvals_ok [] = true).
    { unfold pvals_ok. cbn [forallb removelast andb]. apply Rleb_true.
      unfold np_sum_float. cbn [fold_left]. lra. }
    rewrite Hok. destruct (sample_category [] (rng w)) as [k g].
    eexists. reflexivity. }
  destruct (klass (self w)) as [epsilon | | temperature | |].
  - apply (Hgreedy _ epsilon). split.
    + apply EpsilonGreedy_exploit.
    + apply EpsilonGreedy_explore.
  - destruct schedule_first as (epsilon & Hs & _). rewrite <- Ht in Hs.
    apply (Hgreedy _ epsilon). split.
    + now apply AnnealingEpsilonGreedy_exploit.
    + now apply AnnealingEpsilonGreedy_explore.
  - unfold Softmax.select_arm, bind at 1, get_values at 1. rewrite Hv.
    unfold bind at 1, lift at 1. cbn [rmap].
    unfold bind at 1, lift at 1. cbn [Softmax.softmax_probs map rmap].
    exact Hdraw.
  - destruct schedule_first as (temperature & Hs & _). rewrite <- Ht in Hs.
    unfold AnnealingSoftmax.select_arm, bind at 1, get_counts at 1.
    unfold bind at 1, lift at 1. rewrite Hs.
    unfold bind at 1, get_values at 1. rewrite Hv.
    unfold bind at 1, lift at 1. cbn [rmap].
    unfold bind at 1, lift at 1. cbn [Softmax.softmax_probs map rmap].
    exact Hdraw.
  - unfold UCB.select_arm, bind at 1, get_counts at 1. rewrite Hc.
    eexists. reflexivity.
Qed.

Lemma test_algorithm_no_arm num_simulations horizon (w : world G) :
  (1 <= num_simulations)%Z -> (1 <= horizon)%Z ->
  exists w', test_algorithm [] num_simulations horizon w = (Raise ValueError, w').
Proof.
  intros Hn Hh. unfold test_algorithm, bind at 1, lift at 1, np_zeros2.
  destruct (Z.ltb_spec num_simulations 0), (Z.ltb_spec horizon 0); try lia.
  cbn [orb]. unfold bind at 1, lift at 1.
  unfold bind at 1. unfold simulate, range.
  destruct (Z.to_nat num_simulations) as [|n] eqn:Hnz; [lia|].
  destruct (Z.to_nat horizon) as [|h] eqn:Hhz; [lia|].
  cbn [seq for_]. unfold bind at 1. unfold bind at 1.
  rewrite initialize_run by (cbn; lia).
  unfold bind at 1. unfold play at 1.
  unfold bind at 1.
  match goal with |- context [select_arm ?w0] =>
    destruct (select_arm_no_arm w0) as (w' & ->); [reflexivity | reflexivity|]
  end.
  exists w'. reflexivity.
Qed.
End Preconditions.

Section PreconditionClaims.
Context {G : Type} `{NumpyRandom G}.

End PreconditionClaims.



(** ** Traces on concrete inputs *)

Example update_trace :
  (initialize 2 ;;; updates [(0%Z, 1); (0%Z, 0); (1%Z, 1)])
    (tape_world (UCB.__init__ [] []) [])
  = (Ok tt, tape_world (UCB.__init__ [2%Z; 1%Z] [1 / 2; 1]) []).
Proof.
  unfold bind at 1. rewrite initialize_run by lia.
  cbn [updates tape_world UCB.__init__ self klass rng].
  change (Z.to_nat 2) with 2%nat. cbn [repeat].
  unfold bind at 1. rewrite (update_run _ _ 0%nat) by (try reflexivity; cbn; lia).
  unfold after_update at 1. cbn [self counts values klass rng nth replace_nth Z.add Pos.add].
  unfold bind at 1. rewrite (update_run _ _ 0%nat) by (try reflexivity; cbn; lia).
  unfold after_update at 1.
  cbn [self counts values klass rng nth replace_nth Z.add Pos.add Pos.succ].
  unfold bind at 1. rewrite (update_run _ _ 1%nat) by (try reflexivity; cbn; lia).
  unfold after_update at 1.
  cbn [self counts values klass rng nth replace_nth Z.add Pos.add Pos.succ].
  unfold ret, tape_world, UCB.__init__. do 4 f_equal; [lra | f_equal; lra].
Qed.

Section Stepping.
Context {G : Type} `{NumpyRandom G}.

Lemma bind_run {A B} (c : M G A) (k : A -> M G B) (w w1 : world G) a :
c w = (Ok a, w1) -> bind c k w = k a w1.
Proof. intros Hc. unfold bind. now rewrite Hc. Qed.

Lemma draw_miss arm (w : world G) :
fst (sample_float (rng w)) > p arm ->
draw arm w = (Ok 0, drawn w (snd (sample_float (rng w)))).
Proof.
intros Hz. unfold draw, bind, np_random.
destruct (sample_float (rng w)) as [z g]. cbn [fst snd] in *.
now rewrite Rgtb_true.
Qed.

Lemma draw_hit arm (w : world G) :
fst (sample_float (rng w)) <= p arm ->
draw arm w = (Ok 1, drawn w (snd (sample_float (rng w)))).
Proof.
intros Hz. unfold draw, bind, np_random.
destruct (sample_float (rng w)) as [z g]. cbn [fst snd] in *.
now rewrite Rgtb_false.
Qed.

Lemma play_run arms sim t chosen_arms rewards (w w1 w2 w3 : world G) arm a reward :
select_arm w = (Ok arm, w1) ->
getitem {| p := 0 |} arms arm = Ok a ->
draw a w1 = (Ok reward, w2) ->
update arm reward w2 = (Ok tt, w3) ->
play arms sim t (chosen_arms, rewards) w
= (Ok (setitem2 chosen_arms sim t (IZR arm), setitem2 rewards sim t reward), w3).
Proof.
intros Hsel Hget Hdraw Hupd. unfold play.
rewrite (bind_run _ _ _ _ _ Hsel).
unfold bind at 1, lift at 1. rewrite Hget.
rewrite (bind_run _ _ _ _ _ Hdraw).
rewrite (bind_run _ _ _ _ _ Hupd). reflexivity.
Qed.
End Stepping.

Ltac count_bounds :=
  match goal with
  | |- (0 <= ?c < _)%Z => let v := eval vm_compute in c in change c with v; lia
  end.

Lemma UCB_single_arm {G} `{NumpyRandom G} (w : world G) c :
  klass (self w) = UCB -> counts (self w) = [c] ->
  (1 <= c < 9223372036854775808)%Z -> length (values (self w)) = 1%nat ->
  select_arm w = (Ok 0%Z, w).
Proof.
  intros Hk Hc Hb Hv.
  destruct (UCB_exploit w) as (i & Hrun & Hi & _).
  - rewrite Hc. discriminate.
  - rewrite Hc. repeat constructor. lia.
  - rewrite Hc, Hv. reflexivity.
  - rewrite Hc. cbn. lia.
  - unfold select_arm. rewrite Hk.
    unfold ucb_scores in Hi. rewrite length_map, length_combine, Hc, Hv in Hi.
    cbn in Hi. replace i with 0%nat in Hrun by lia. exact Hrun.
Qed.

Example simulate_trace :
  simulate one_arm 1 2
    ({| nrows := 1; ncols := 2; cells := [[0; 0]] |},
     {| nrows := 1; ncols := 2; cells := [[0; 0]] |})
    (tape_world (UCB.__init__ [] []) [1%Z; 7%Z])
  = (Ok ({| nrows := 1; ncols := 2; cells := [[0; 0]] |},
         {| nrows := 1; ncols := 2; cells := [[1; 0]] |}),
     tape_world (UCB.__init__ [2%Z] [1 / 2]) []).
Proof.
  unfold simulate. change (range 1) with [0%nat]. change (range 2) with [0%nat; 1%nat].
  cbn [for_].
  unfold bind at 1.
  erewrite bind_run; [|apply initialize_run; apply Nat2Z.is_nonneg].
  (* first step: arm 0 has no play yet; the draw 1/8 is a success *)
  erewrite bind_run;
    [|eapply play_run;
      [ unfold select_arm; apply UCB_visit; reflexivity
      | reflexivity
      | apply draw_hit; cbn; lra
      | apply update_run; try reflexivity; count_bounds ]].
  (* second step: the only arm has the best score; the draw 7/8 is a failure *)
  erewrite bind_run;
    [|eapply play_run;
      [ apply (UCB_single_arm _ 1%Z); try reflexivity; lia
      | reflexivity
      | apply draw_miss; cbn; lra
      | apply update_run; try reflexivity; count_bounds ]].
  unfold ret, setitem2, after_update, drawn, tape_world, UCB.__init__.
  cbn [self counts values klass rng nrows ncols cells snd sample_float Tape tape_float].
  change (Z.to_nat (len one_arm)) with 1%nat.
  change (Z.to_nat (Z.of_nat 0)) with 0%nat. change (Z.to_nat 0) with 0%nat.
  change (Z.of_nat 0) with 0%Z.
  cbn [repeat nth replace_nth]. change (0 + 1)%Z with 1%Z.
  cbn [repeat nth replace_nth]. change (1 + 1)%Z with 2%Z.
  do 4 f_equal. lra.
Qed.

Example harness_trace :
  test_algorithm one_arm 1 2 (tape_world (UCB.__init__ [] []) [1%Z; 7%Z])
  = (Ok ({| nrows := 1; ncols := 2; cells := [[0; 0]] |}, [1; 0], [1; 1]),
     tape_world (UCB.__init__ [2%Z] [1 / 2]) []).
Proof.
  unfold test_algorithm.
  erewrite bind_run; [|reflexivity].
  erewrite bind_run; [|reflexivity].
  erewrite bind_run; [|apply simulate_trace].
  unfold bind, lift, np_mean_axis0, column, np_sum_float.
  cbn [nrows ncols cells seq rmap map nth fold_left INR].
  rewrite !np_div_ok by lra. cbn [rbind]. unfold ret, np_cumsum. cbn [cumsum_from].
  do 2 f_equal. f_equal; [f_equal|]; repeat (f_equal; try lra).
Qed.

(** * Further properties of the code *)

(** ** BernoulliArm.draw and Softmax.categorical_draw *)

Section Draws.
Context {G : Type} `{NumpyRandom G}.

(** X1. [BernoulliArm.draw] always returns, consuming one uniform draw [z]
    and nothing else: the reward is 1 when [z <= p] and 0 when [z > p].
    So an arm with [p >= 1] always pays, an arm with [p < 0] never does,
    and an arm with [p = 0] pays exactly on a draw of 0. *)
Theorem BernoulliArm_draw (arm : BernoulliArm) (w : world G) :
  exists reward,
    draw arm w = (Ok reward, drawn w (snd (sample_float (rng w))))
    /\ (reward = 0 \/ reward = 1)
    /\ (reward = 1 <-> fst (sample_float (rng w)) <= p arm)
    /\ (1 <= p arm -> reward = 1)
    /\ (p arm < 0 -> reward = 0)
    /\ (p arm = 0 -> (reward = 1 <-> fst (sample_float (rng w)) = 0)).
Proof.
  pose proof (sample_float_range (rng w)) as Hz.
  destruct (Rgt_dec (fst (sample_float (rng w))) (p arm)) as [Hgt | Hle].
  - exists 0. split; [now apply draw_miss|].
    split; [now left|]. split; [split; intros; lra|].
    split; [intros; lra|]. split; [reflexivity|]. intros; split; intros; lra.
  - exists 1. split; [apply draw_hit; lra|].
    split; [now right|]. split; [split; intros; lra|].
    split; [reflexivity|]. split; [intros; lra|]. intros; split; intros; lra.
Qed.

(** X2. [Softmax.categorical_draw] on a probability vector that numpy
    accepts (not empty, entries in [[0, 1]], all but the last summing to at
    most 1 + 1e-12) returns the category hit by the multinomial trial: the
    [argmax] of the one-hot row recovers its index, which is below
    [len(probs)]; the object is unchanged. *)
Theorem categorical_draw_category probs (w : world G) :
  probs <> [] ->
  Forall (fun q => 0 <= q <= 1) probs ->
  Rsum (removelast probs) <= 1 + 1 / 1000000000000 ->
  Softmax.categorical_draw probs w
  = (Ok (Z.of_nat (fst (sample_category probs (rng w)))),
     drawn w (snd (sample_category probs (rng w))))
  /\ (fst (sample_category probs (rng w)) < length probs)%nat.
Proof.
  intros Hne Hall Hsum.
  assert (Hok : pvals_ok probs = true).
  { unfold pvals_ok. apply andb_true_iff. split.
    - apply forallb_forall. intros q Hq. rewrite Forall_forall in Hall.
      destruct (Hall q Hq). now rewrite !Rleb_true.
    - apply Rleb_true. now rewrite np_sum_float_Rsum. }
  assert (Hk : (fst (sample_category probs (rng w)) < length probs)%nat).
  { destruct probs as [|q qs]; [congruence|]. apply sample_category_range. }
  split; [|exact Hk].
  unfold Softmax.categorical_draw, bind, np_multinomial1. rewrite Hok.
  destruct (sample_category probs (rng w)) as [k g]. cbn [fst snd] in *.
  unfold lift. cbn [concat]. rewrite app_nil_r.
  now rewrite np_argmax_int_one_hot.
Qed.
End Draws.

Lemma categorical_draw_category_witness :
  Softmax.categorical_draw quarters (tape_world (Softmax.__init__ 1 [] []) [5%Z])
  = (Ok (Z.of_nat (fst (sample_category quarters [5%Z]))),
     drawn (tape_world (Softmax.__init__ 1 [] []) [5%Z])
       (snd (sample_category quarters [5%Z])))
  /\ (fst (sample_category quarters [5%Z]) < length quarters)%nat.
Proof.
  apply (categorical_draw_category quarters
           (tape_world (Softmax.__init__ 1 [] []) [5%Z])).
  - discriminate.
  - repeat constructor; lra.
  - unfold Rsum. cbn [quarters removelast fold_right]. lra.
Defined.

(** ** Softmax probabilities *)








Section SoftmaxClaims.
Context {G : Type} `{NumpyRandom G}.

Lemma Softmax_select_arm_pvals temperature (w : world G) :
  Softmax.select_arm temperature w
  = (probs <- lift (softmax_pvals temperature (values (self w))) ;;
     Softmax.categorical_draw probs) w.
Proof.
  unfold Softmax.select_arm, softmax_pvals, bind, get_values, lift.
  destruct (rmap _ (values (self w))) as [z | e | x]; reflexivity.
Qed.

Lemma AnnealingSoftmax_select_arm_pvals temperature (w : world G) :
  schedule (wrap64 (np_sum (counts (self w)) + 1)) = Ok temperature ->
  AnnealingSoftmax.select_arm w
  = (probs <- lift (softmax_pvals temperature (values (self w))) ;;
     Softmax.categorical_draw probs) w.
Proof.
  intros Hs.
  unfold AnnealingSoftmax.select_arm, softmax_pvals, bind, get_counts, get_values, lift.
  rewrite Hs.
  destruct (rmap _ (values (self w))) as [z | e | x]; reflexivity.
Qed.



End SoftmaxClaims.





(** ** The annealing classes in a running simulation *)





Section AnnealingRuns.
Context {G : Type} `{NumpyRandom G}.

(** X6. [EpsilonGreedy.select_arm] at the ends of the range of epsilon,
    with at least one arm: for a negative epsilon every draw exceeds it and
    the call returns the first maximum of [values]; for [epsilon >= 1] no
    draw exceeds it and the call returns the [randint(0, K)] draw, an index
    below [K], whatever the values. *)
Theorem EpsilonGreedy_extremes epsilon (w : world G) :
  values (self w) <> [] ->
  (epsilon < 0 ->
   exists i,
     EpsilonGreedy.select_arm epsilon w
     = (Ok (Z.of_nat i), drawn w (snd (sample_float (rng w))))
     /\ first_max (values (self w)) i)
  /\ (1 <= epsilon ->
      let g := snd (sample_float (rng w)) in
      EpsilonGreedy.select_arm epsilon w
      = (Ok (fst (sample_int 0 (len (values (self w))) g)),
         drawn w (snd (sample_int 0 (len (values (self w))) g)))
      /\ (0 <= fst (sample_int 0 (len (values (self w))) g)
          < len (values (self w)))%Z).
Proof.
  intros Hv. pose proof (sample_float_range (rng w)) as Hz.
  assert (Hlen : (0 < len (values (self w)))%Z).
  { unfold len. destruct (values (self w)); [congruence | cbn [length]; lia]. }
  split.
  - intros Heps. destruct (np_argmax_first_max _ Hv) as (i & Harg & Hfirst).
    exists i. split; [|assumption].
    rewrite EpsilonGreedy_exploit by lra. now rewrite Harg.
  - intros Heps. cbv zeta. split; [|now apply sample_int_range].
    rewrite EpsilonGreedy_explore by lra.
    rewrite np_randint_run by (cbn [drawn self]; exact Hlen). reflexivity.
Qed.


End AnnealingRuns.

Lemma EpsilonGreedy_extremes_witness :
  (0 <= fst (sample_int 0 (len (values (self greedy_world)))
                        (snd (sample_float (rng greedy_world))))
   < len (values (self greedy_world)))%Z.
Proof.
  pose proof (EpsilonGreedy_extremes 2 greedy_world) as Hx.
  destruct Hx as [_ Hx]; [cbn; discriminate|].
  destruct Hx as [_ Hr]; [lra|]. exact Hr.
Defined.



(** ** update and initialize on their own *)

Section UpdateAlone.
Context {G : Type} `{NumpyRandom G}.

(** X9. A successful [update(arm, reward)], in any of the five classes,
    touches the chosen arm only: its count grows by one (so the total grows
    by one), every other count and every other value estimate is kept, the
    arrays keep their lengths, and neither the class nor the generator
    changes. *)
Theorem update_one_arm arm reward k (w : world G) :
  length (values (self w)) = length (counts (self w)) ->
  position (length (counts (self w))) arm = Ok k ->
  (0 <= nth k (counts (self w)) 0 < 9223372036854775807)%Z ->
  exists w',
    update arm reward w = (Ok tt, w')
    /\ klass (self w') = klass (self w) /\ rng w' = rng w
    /\ length (counts (self w')) = length (counts (self w))
    /\ length (values (self w')) = length (values (self w))
    /\ nth k (counts (self w')) 0%Z = (nth k (counts (self w)) 0 + 1)%Z
    /\ total (counts (self w')) = (total (counts (self w)) + 1)%Z
    /\ forall j, j <> k ->
         nth j (counts (self w')) 0%Z = nth j (counts (self w)) 0%Z
         /\ nth j (values (self w')) 0 = nth j (values (self w)) 0.
Proof.
  intros Hlen Hpos Hold.
  destruct (position_inv _ _ _ Hpos) as [Hk _].
  exists (after_update k reward w). split; [now apply update_run|].
  unfold after_update. cbn [self counts values klass rng].
  rewrite !replace_nth_length.
  repeat split; try reflexivity.
  - now apply nth_replace_nth_eq.
  - rewrite total_replace_nth by assumption. lia.
  - now apply nth_replace_nth_neq.
  - now apply nth_replace_nth_neq.
Qed.


(** X11. [update] with an arm index outside [[-K, K)], [K] the length of
    [counts], raises [IndexError] and changes nothing.  It is not atomic,
    though: when [counts] has the item and [values] is too short to have
    it, the count is incremented before [IndexError] is raised. *)
Theorem update_index_error arm reward (w : world G) :
  ((arm < - len (counts (self w)) \/ len (counts (self w)) <= arm)%Z ->
   update arm reward w = (Raise IndexError, w))
  /\ ((0 <= arm < len (counts (self w)))%Z ->
      (len (values (self w)) <= arm)%Z ->
      update arm reward w
      = (Raise IndexError,
         {| self := {| klass := klass (self w);
                       counts := replace_nth (Z.to_nat arm)
                                   (wrap64 (nth (Z.to_nat arm) (counts (self w)) 0%Z + 1))
                                   (counts (self w));
                       values := values (self w) |};
            rng := rng w |})).
Proof.
  unfold len. split.
  - intros Hout. rewrite update_dispatch.
    assert (Hpos : position (length (counts (self w))) arm = Raise IndexError).
    { unfold position.
      destruct (Z.leb_spec 0 arm), (Z.ltb_spec arm (Z.of_nat (length (counts (self w)))));
        cbn [andb]; try lia;
        destruct (Z.leb_spec (- Z.of_nat (length (counts (self w)))) arm),
                 (Z.ltb_spec arm 0); cbn [andb]; try lia; reflexivity. }
    unfold EpsilonGreedy.update, bind, get_counts, lift, getitem.
    now rewrite Hpos.
  - intros Hin Hshort. rewrite update_dispatch.
    assert (Hpos : position (length (counts (self w))) arm = Ok (Z.to_nat arm))
      by (apply position_nonneg; lia).
    assert (Hposv : position (length (values (self w))) arm = Raise IndexError).
    { unfold position.
      destruct (Z.leb_spec 0 arm), (Z.ltb_spec arm (Z.of_nat (length (values (self w)))));
        cbn [andb]; try lia;
        destruct (Z.leb_spec (- Z.of_nat (length (values (self w)))) arm),
                 (Z.ltb_spec arm 0); cbn [andb]; try lia; reflexivity. }
    unfold EpsilonGreedy.update.
    cbv beta iota delta
      [bind lift ret get_counts get_values set_counts set_values getitem setitem rbind].
    cbn [self counts values klass rng].
    rewrite Hpos. cbv beta iota.
    rewrite replace_nth_length, Hpos. cbv beta iota.
    rewrite Hposv. reflexivity.
Qed.

(** X12. [initialize(n)] rejects a negative [n] with [ValueError] and
    changes nothing; for [n >= 0] it succeeds, and what it leaves depends
    on the class and on [n] alone: initialising again, with the same or
    another size, discards the previous arrays, and [n = 0] leaves two
    empty arrays. *)
Theorem initialize_resets (n m : Z) (w : world G) :
  ((n < 0)%Z -> initialize n w = (Raise ValueError, w))
  /\ ((0 <= n)%Z ->
      initialize n w = (Ok tt, initialized n w)
      /\ ((0 <= m)%Z -> (initialize n ;;; initialize m) w = initialize m w))
  /\ counts (self (initialized 0 w)) = [] /\ values (self (initialized 0 w)) = [].
Proof.
  split; [apply initialize_negative|]. split; [|split; reflexivity].
  intros Hn. split; [now apply initialize_run|].
  intros Hm. unfold bind. rewrite (initialize_run n) by assumption.
  rewrite !initialize_run by assumption. reflexivity.
Qed.
End UpdateAlone.

Lemma update_one_arm_witness :
  exists w',
    update (-1) 1 played_world = (Ok tt, w')
    /\ klass (self w') = klass (self played_world) /\ rng w' = rng played_world
    /\ length (counts (self w')) = length (counts (self played_world))
    /\ length (values (self w')) = length (values (self played_world))
    /\ nth 1 (counts (self w')) 0%Z = (nth 1 (counts (self played_world)) 0 + 1)%Z
    /\ total (counts (self w')) = (total (counts (self played_world)) + 1)%Z
    /\ forall j, j <> 1%nat ->
         nth j (counts (self w')) 0%Z = nth j (counts (self played_world)) 0%Z
         /\ nth j (values (self w')) 0 = nth j (values (self played_world)) 0.
Proof.
  apply (update_one_arm (-1) 1 1 played_world).
  - reflexivity.
  - reflexivity.
  - cbn. lia.
Defined.


Lemma update_index_error_witness :
  update 2 1 played_world = (Raise IndexError, played_world)
  /\ update 1 1 (tape_world (UCB.__init__ [0%Z; 0%Z] [0]) [])
     = (Raise IndexError, tape_world (UCB.__init__ [0%Z; 1%Z] [0]) []).
Proof.
  split.
  - apply (proj1 (update_index_error 2 1 played_world)). cbn. lia.
  - apply (proj2 (update_index_error 1 1 (tape_world (UCB.__init__ [0%Z; 0%Z] [0]) [])));
      cbn; lia.
Defined.

Lemma initialize_resets_witness :
  initialize (-1) played_world = (Raise ValueError, played_world)
  /\ initialize 3 played_world = (Ok tt, initialized 3 played_world)
  /\ (initialize 3 ;;; initialize 2) played_world = initialize 2 played_world.
Proof.
  split; [apply (proj1 (initialize_resets (-1) 0 played_world)); lia|].
  destruct (proj1 (proj2 (initialize_resets 3 2 played_world))) as [Hrun Hagain]; [lia|].
  split; [exact Hrun | apply Hagain; lia].
Defined.

(** ** What UCB1 prefers *)



Section UCBPreference.
Context {G : Type} `{NumpyRandom G}.

End UCBPreference.


(** ** What the harness records *)

Lemma argmax_scan_bound {A} (gtb : A -> A -> bool) t : forall best_i best i,
  (best_i < i)%nat -> (argmax_scan gtb best_i best i t < i + length t)%nat.
Proof.
  induction t as [|x t IH]; intros best_i best i Hlt; cbn [argmax_scan length]; [lia|].
  destruct (gtb x best).
  - specialize (IH i x (S i)). lia.
  - specialize (IH best_i best (S i)). lia.
Qed.

Lemma np_argmax_by_bound {A} (gtb : A -> A -> bool) a i :
  np_argmax_by gtb a = Ok i -> (0 <= i < len a)%Z.
Proof.
  destruct a as [|x t]; cbn [np_argmax_by]; intros Hi; inversion Hi.
  pose proof (argmax_scan_bound gtb t 0 x 1). unfold len. cbn [length]. lia.
Qed.

Lemma rmap_length {A B} (f : A -> result B) l : forall r,
  rmap f l = Ok r -> length r = length l.
Proof.
  induction l as [|a l IH]; intros r Hr; cbn [rmap] in Hr.
  - inversion Hr. reflexivity.
  - destruct (f a) as [b | e | x]; cbn [rbind] in Hr; try discriminate.
    destruct (rmap f l) as [bs | e | x]; cbn [rbind] in Hr; try discriminate.
    inversion Hr. cbn [length]. f_equal. now apply IH.
Qed.

Lemma softmax_pvals_length temperature v probs :
  softmax_pvals temperature v = Ok probs -> length probs = length v.
Proof.
  unfold softmax_pvals.
  destruct (rmap _ v) as [z | e | x] eqn:Hz; cbn [rbind]; try discriminate.
  unfold Softmax.softmax_probs. intros Hp.
  apply rmap_length in Hp. apply rmap_length in Hz.
  rewrite length_map in Hp. congruence.
Qed.



Lemma cells_all_setitem2 (P : R -> Prop) a i j v :
  cells_all P a -> P v -> cells_all P (setitem2 a i j v).
Proof.
  intros Hall Hv. unfold cells_all, setitem2. cbn [cells].
  apply Forall_replace_nth; [assumption|]. intros Hi.
  apply Forall_replace_nth; [|intros _; assumption].
  unfold cells_all in Hall. rewrite Forall_forall in Hall.
  apply Hall. now apply nth_In.
Qed.


Lemma cells_all_zeros (P : R -> Prop) n h zeros :
  np_zeros2 n h = Ok zeros -> P 0 -> cells_all P zeros.
Proof.
  unfold np_zeros2. destruct ((n <? 0) || (h <? 0))%Z; [discriminate|].
  intros Hz H0. inversion Hz; subst. unfold cells_all. cbn [cells].
  apply Forall_forall. intros row Hrow. apply repeat_spec in Hrow. subst.
  apply Forall_forall. intros x Hx. apply repeat_spec in Hx. now subst.
Qed.

Section HarnessRecords.
Context {G : Type} `{NumpyRandom G}.

Lemma np_randint_bound hi (w w' : world G) arm :
  np_randint 0 hi w = (Ok arm, w') -> (0 <= arm < hi)%Z.
Proof.
  unfold np_randint. destruct (Z.ltb_spec 0 hi) as [Hlt | Hge]; [|discriminate].
  pose proof (sample_int_range 0 hi (rng w) Hlt) as Hr.
  destruct (sample_int 0 hi (rng w)) as [k g]. cbn [fst] in Hr.
  intros Hrun. inversion Hrun; subst. lia.
Qed.

Lemma categorical_draw_bound probs (w w' : world G) arm :
  Softmax.categorical_draw probs w = (Ok arm, w') -> (0 <= arm < len probs)%Z.
Proof.
  unfold Softmax.categorical_draw, bind, np_multinomial1.
  destruct (pvals_ok probs); [|discriminate].
  destruct (sample_category probs (rng w)) as [k g]. unfold lift.
  destruct (np_argmax_int _) as [i | e | x] eqn:Harg; try discriminate.
  intros Hrun. inversion Hrun; subst.
  apply np_argmax_by_bound in Harg. unfold len in *.
  cbn [concat] in Harg. rewrite app_nil_r in Harg.
  unfold one_hot in Harg. rewrite length_map, length_seq in Harg. exact Harg.
Qed.

Lemma greedy_bound epsilon (w w' : world G) arm :
  (z <- np_random ;;
   if Rgtb z epsilon then v <- get_values ;; lift (np_argmax v)
   else v <- get_values ;; np_randint 0 (len v)) w = (Ok arm, w') ->
  (0 <= arm < len (values (self w)))%Z.
Proof.
  unfold bind at 1, np_random.
  destruct (sample_float (rng w)) as [z g].
  destruct (Rgtb z epsilon); unfold bind, get_values; cbn [self].
  - unfold lift. destruct (np_argmax _) as [i | e | x] eqn:Harg; try discriminate.
    intros Hrun. inversion Hrun; subst. apply (np_argmax_by_bound _ _ _ Harg).
  - destruct (np_randint _ _ _) as [[i | e | x] w1] eqn:Hr; try discriminate.
    intros Hrun. inversion Hrun; subst. apply (np_randint_bound _ _ _ _ Hr).
Qed.

Lemma pvals_draw_bound temperature (w w' : world G) arm :
  (probs <- lift (softmax_pvals temperature (values (self w))) ;;
   Softmax.categorical_draw probs) w = (Ok arm, w') ->
  (0 <= arm < len (values (self w)))%Z.
Proof.
  unfold bind, lift.
  destruct (softmax_pvals _ _) as [probs | e | x] eqn:Hp; try discriminate.
  intros Hd. apply categorical_draw_bound in Hd.
  apply softmax_pvals_length in Hp. unfold len in *. lia.
Qed.

Lemma collect_length {A} (f : nat -> M G A) l : forall (w : world G) r w',
  collect l f w = (Ok r, w') -> length r = length l.
Proof.
  induction l as [|i l IH]; intros w r w' Hrun; cbn [collect] in Hrun.
  - unfold ret in Hrun. inversion Hrun. reflexivity.
  - unfold bind at 1 in Hrun.
    destruct (f i w) as [[a | e | x] w1]; try discriminate.
    unfold bind at 1 in Hrun.
    destruct (collect l f w1) as [[rest | e | x] w2] eqn:Hrest; try discriminate.
    unfold ret in Hrun. inversion Hrun. cbn [length]. f_equal.
    apply (IH _ _ _ Hrest).
Qed.

Lemma select_arm_bounds (w w' : world G) arm :
  select_arm w = (Ok arm, w') ->
  (0 <= arm < match klass (self w) with
              | UCB => len (counts (self w))
              | _ => len (values (self w))
              end)%Z.
Proof.
  unfold select_arm. destruct (klass (self w)) as [epsilon | | temperature | |].
  - apply greedy_bound.
  - unfold AnnealingEpsilonGreedy.select_arm, bind at 1, get_counts.
    unfold bind at 1, lift at 1.
    destruct (schedule _) as [epsilon | e | x]; try discriminate.
    apply greedy_bound.
  - rewrite Softmax_select_arm_pvals. apply pvals_draw_bound.
  - destruct (schedule (wrap64 (np_sum (counts (self w)) + 1)))
      as [temperature | e | x] eqn:Hs.
    + rewrite (AnnealingSoftmax_select_arm_pvals temperature) by exact Hs.
      apply pvals_draw_bound.
    + unfold AnnealingSoftmax.select_arm, bind at 1, get_counts.
      unfold bind at 1, lift at 1. rewrite Hs. discriminate.
    + unfold AnnealingSoftmax.select_arm, bind at 1, get_counts.
      unfold bind at 1, lift at 1. rewrite Hs. discriminate.
  - unfold UCB.select_arm, bind at 1, get_counts.
    destruct (UCB.unvisited _ _) as [k|] eqn:Hu.
    + unfold ret. intros Hrun. inversion Hrun; subst.
      apply unvisited_some in Hu. unfold len. lia.
    + unfold bind at 1. unfold bind.
      destruct (collect _ _ w) as [[scores | e | x] w1] eqn:Hc; try discriminate.
      unfold lift. destruct (np_argmax scores) as [i | e | x] eqn:Harg;
        try discriminate.
      intros Hrun. inversion Hrun; subst.
      apply np_argmax_by_bound in Harg. apply collect_length in Hc.
      rewrite range_len, length_seq in Hc. unfold len in *. lia.
Qed.

Lemma select_arm_nonneg (w w' : world G) arm :
  select_arm w = (Ok arm, w') -> (0 <= arm)%Z.
Proof. intros Hrun. apply select_arm_bounds in Hrun. lia. Qed.

Lemma play_inv arms sim t chosen_arms rewards (w w' : world G) tables' :
  play arms sim t (chosen_arms, rewards) w = (Ok tables', w') ->
  exists arm w1 a reward w2,
    select_arm w = (Ok arm, w1)
    /\ getitem {| p := 0 |} arms arm = Ok a
    /\ draw a w1 = (Ok reward, w2)
    /\ update arm reward w2 = (Ok tt, w')
    /\ tables' = (setitem2 chosen_arms sim t (IZR arm), setitem2 rewards sim t reward).
Proof.
  unfold play, bind.
  destruct (select_arm w) as [[arm | e | x] w1] eqn:Hsel; try discriminate.
  unfold lift.
  destruct (getitem _ arms arm) as [a | e | x] eqn:Hget; try discriminate.
  destruct (draw a w1) as [[reward | e | x] w2] eqn:Hdraw; try discriminate.
  destruct (update arm reward w2) as [[[] | e | x] w3] eqn:Hupd; try discriminate.
  unfold ret. intros Hrun. inversion Hrun; subst.
  exists arm, w1, a, reward, w2. repeat split; assumption.
Qed.

Lemma getitem_index {A} (d : A) l i a :
  getitem d l i = Ok a -> (0 <= i)%Z ->
  (i < Z.of_nat (length l))%Z /\ position (length l) i = Ok (Z.to_nat i).
Proof.
  unfold getitem. intros Hget Hi.
  destruct (position (length l) i) as [k | e | x] eqn:Hpos; try discriminate.
  destruct (position_inv _ _ _ Hpos) as [Hk [Heq | Heq]]; [|lia].
  subst i. rewrite Nat2Z.id. split; [lia | reflexivity].
Qed.

Lemma draw_binary arm (w w' : world G) reward :
  draw arm w = (Ok reward, w') ->
  (reward = 0 \/ reward = 1) /\ self w' = self w.
Proof.
  destruct (Rgt_dec (fst (sample_float (rng w))) (p arm)) as [Hgt | Hle].
  - rewrite draw_miss by assumption. intros Hrun. inversion Hrun; subst.
    split; [now left | reflexivity].
  - rewrite draw_hit by lra. intros Hrun. inversion Hrun; subst.
    split; [now right | reflexivity].
Qed.

Lemma simulate_cells (P : ndarray2 * ndarray2 -> Prop) arms num_simulations horizon :
  (forall sim t chosen_arms rewards (w w1 w2 : world G) arm a reward,
      select_arm w = (Ok arm, w1) ->
      getitem {| p := 0 |} arms arm = Ok a ->
      draw a w1 = (Ok reward, w2) ->
      P (chosen_arms, rewards) ->
      P (setitem2 chosen_arms sim t (IZR arm), setitem2 rewards sim t reward)) ->
  forall tables (w : world G) tables' w',
    simulate arms num_simulations horizon tables w = (Ok tables', w') ->
    P tables -> P tables'.
Proof.
  intros Hstep. unfold simulate. apply (for_invariant P).
  intros sim s w0 s' w0' Hbody Hs. unfold bind in Hbody.
  destruct (initialize (len arms) w0) as [[[] | e | x] w1]; try discriminate.
  revert Hbody Hs. apply (for_invariant P).
  intros t [chosen_arms rewards] w2 s0' w2' Hplay HP.
  destruct (play_inv _ _ _ _ _ _ _ _ Hplay)
    as (arm & w3 & a & reward & w4 & Hsel & Hget & Hdraw & _ & ->).
  now apply (Hstep sim t chosen_arms rewards w2 w3 w4 arm a reward).
Qed.

Lemma test_algorithm_success arms num_simulations horizon (w w' : world G)
    chosen_arms average_rewards cumulative_rewards :
  test_algorithm arms num_simulations horizon w
  = (Ok (chosen_arms, average_rewards, cumulative_rewards), w') ->
  exists zeros rewards,
    (0 <= num_simulations)%Z /\ (0 <= horizon)%Z
    /\ np_zeros2 num_simulations horizon = Ok zeros
    /\ shaped (Z.to_nat num_simulations) (Z.to_nat horizon) zeros
    /\ simulate arms num_simulations horizon (zeros, zeros) w
       = (Ok (chosen_arms, rewards), w')
    /\ shaped (Z.to_nat num_simulations) (Z.to_nat horizon) chosen_arms
    /\ shaped (Z.to_nat num_simulations) (Z.to_nat horizon) rewards
    /\ np_mean_axis0 rewards = Ok average_rewards
    /\ cumulative_rewards = np_cumsum average_rewards.
Proof.
  intros Hrun.
  assert (Hdims : (0 <= num_simulations)%Z /\ (0 <= horizon)%Z).
  { unfold test_algorithm, bind, lift, np_zeros2 in Hrun.
    destruct (Z.ltb_spec num_simulations 0), (Z.ltb_spec horizon 0);
      cbn [orb] in Hrun; try discriminate. lia. }
  destruct Hdims as [Hn Hh].
  destruct (np_zeros2_shaped num_simulations horizon Hn Hh) as (zeros & Hz & Hshape).
  unfold test_algorithm, bind, lift in Hrun. rewrite Hz in Hrun.
  destruct (simulate arms num_simulations horizon (zeros, zeros) w)
    as [[[chosen rewards] | e | x] w1] eqn:Hsim; try discriminate.
  destruct (np_mean_axis0 rewards) as [avg | e | x] eqn:Hmean; try discriminate.
  unfold ret in Hrun. inversion Hrun; subst. clear Hrun.
  destruct (simulate_shaped _ _ _ (Z.to_nat num_simulations) (Z.to_nat horizon)
              _ _ _ _ Hsim) as [Hc Hr]; [split; assumption|].
  cbn [fst snd] in Hc, Hr.
  exists zeros, rewards.
  split; [exact Hn|]. split; [exact Hh|]. split; [exact Hz|].
  split; [exact Hshape|]. split; [exact Hsim|]. split; [exact Hc|].
  split; [exact Hr|]. split; [exact Hmean | reflexivity].
Qed.
End HarnessRecords.



Lemma ready_initialized {G} K (w : world G) :
  ready K 0 (self (initialized (Z.of_nat K) w)).
Proof.
  unfold ready, initialized. cbn [self counts values].
  rewrite Nat2Z.id, !repeat_length.
  split; [reflexivity|]. split; [reflexivity|]. split.
  - apply Forall_forall. intros c Hc. apply repeat_spec in Hc. lia.
  - apply total_repeat_zero.
Qed.

Section HarnessRuns.
Context {G : Type} `{NumpyRandom G}.

Lemma play_ready K J arms sim t tables (w : world G) tables' w' :
  play arms sim t tables w = (Ok tables', w') ->
  length arms = K -> ready K J (self w) -> (J < 9223372036854775807)%Z ->
  ready K (J + 1) (self w') /\ klass (self w') = klass (self w).
Proof.
  destruct tables as [chosen_arms rewards]. intros Hplay HK Hready HJ.
  destruct (play_inv _ _ _ _ _ _ _ _ Hplay)
    as (arm & w1 & a & reward & w2 & Hsel & Hget & Hdraw & Hupd & _).
  pose proof (select_arm_reads w) as Hs1. rewrite Hsel in Hs1. cbn [snd] in Hs1.
  destruct (draw_binary _ _ _ _ Hdraw) as [_ Hs2].
  assert (Hself : self w2 = self w) by congruence.
  pose proof (select_arm_nonneg _ _ _ Hsel) as Harm0.
  destruct (getitem_index _ _ _ _ Hget Harm0) as [Harm Hpos].
  rewrite <- Hself in Hready.
  pose proof Hready as (Hlc & Hlv & Hnonneg & Htot).
  pose proof (nth_le_total _ Hnonneg (Z.to_nat arm)) as Hle.
  rewrite (update_run arm reward (Z.to_nat arm)) in Hupd.
  - inversion Hupd; subst w'. split.
    + apply ready_after_update; [assumption | lia].
    + unfold after_update. cbn [self klass]. congruence.
  - congruence.
  - rewrite Hlc, <- HK. exact Hpos.
  - lia.
Qed.

Lemma steps_ready K arms sim : forall steps J tables (w : world G) tables' w',
  for_ steps (play arms sim) tables w = (Ok tables', w') ->
  length arms = K -> ready K J (self w) ->
  (J + Z.of_nat (length steps) < 9223372036854775808)%Z ->
  ready K (J + Z.of_nat (length steps)) (self w')
  /\ klass (self w') = klass (self w).
Proof.
  induction steps as [|t steps IH]; intros J tables w tables' w' Hrun HK Hready HJ.
  - cbn [for_] in Hrun. unfold ret in Hrun. inversion Hrun; subst.
    cbn [length]. rewrite Z.add_0_r. split; [assumption | reflexivity].
  - cbn [for_] in Hrun. unfold bind in Hrun. cbn [length] in HJ |- *.
    destruct (play arms sim t tables w) as [[s1 | e | x] w1] eqn:Hplay;
      try discriminate.
    destruct (play_ready K J _ _ _ _ _ _ _ Hplay HK Hready) as [Hr1 Hk1]; [lia|].
    destruct (IH (J + 1)%Z s1 w1 tables' w' Hrun HK Hr1) as [Hr Hk]; [lia|].
    split; [|congruence].
    replace (J + Z.of_nat (S (length steps)))%Z
      with (J + 1 + Z.of_nat (length steps))%Z by lia.
    exact Hr.
Qed.

Lemma simulation_ready arms horizon sim tables (w : world G) tables' w' :
  (initialize (len arms) ;;; for_ (range horizon) (play arms sim) tables) w
  = (Ok tables', w') ->
  (0 <= horizon < 9223372036854775808)%Z ->
  ready (length arms) horizon (self w') /\ klass (self w') = klass (self w).
Proof.
  intros Hrun Hh. unfold bind in Hrun.
  rewrite initialize_run in Hrun by (unfold len; lia).
  fold (initialized (len arms) w) in Hrun.
  destruct (steps_ready (length arms) arms sim (range horizon) 0 tables
              (initialized (len arms) w) tables' w' Hrun eq_refl) as [Hr Hk].
  - apply ready_initialized.
  - unfold range. rewrite length_seq. lia.
  - unfold range in Hr. rewrite length_seq, Z2Nat.id in Hr by lia.
    split; [exact Hr | exact Hk].
Qed.

Lemma simulate_ready arms num_simulations horizon tables (w : world G) tables' w' :
  simulate arms num_simulations horizon tables w = (Ok tables', w') ->
  (1 <= num_simulations)%Z -> (0 <= horizon < 9223372036854775808)%Z ->
  ready (length arms) horizon (self w') /\ klass (self w') = klass (self w).
Proof.
  intros Hrun Hn Hh. unfold simulate in Hrun.
  assert (Hne : range num_simulations <> []).
  { unfold range. destruct (Z.to_nat num_simulations) eqn:Hz; [lia|].
    cbn [seq]. discriminate. }
  revert tables w Hrun Hne.
  induction (range num_simulations) as [|sim sims IH]; intros tables w Hrun Hne;
    [congruence|].
  cbn [for_] in Hrun. unfold bind at 1 in Hrun.
  match type of Hrun with
  | context [bind ?c ?k w] =>
      destruct (bind c k w) as [[s1 | e | x] w1] eqn:Hbody; try discriminate
  end.
  destruct (simulation_ready _ _ _ _ _ _ _ Hbody Hh) as [Hr1 Hk1].
  destruct sims as [|sim' sims].
  - cbn [for_] in Hrun. unfold ret in Hrun. inversion Hrun; subst.
    split; assumption.
  - destruct (IH s1 w1 Hrun) as [Hr Hk]; [discriminate|].
    split; [exact Hr | congruence].
Qed.

Lemma bind_same {A B} (c : M G A) (k : A -> M G B) (w1 w2 : world G) :
  c w1 = c w2 -> bind c k w1 = bind c k w2.
Proof. unfold bind. intros ->. reflexivity. Qed.


(** X15. Arms recorded by a completed [test_algorithm] run with at least
    one simulation and one time step: [chosen_arms] has [num_simulations]
    rows of [horizon] cells, and every cell holds an index of [arms], an
    integer in [0, len(arms)). *)
Theorem test_algorithm_chosen_arms arms num_simulations horizon (w w' : world G)
    chosen_arms average_rewards cumulative_rewards :
  test_algorithm arms num_simulations horizon w
  = (Ok (chosen_arms, average_rewards, cumulative_rewards), w') ->
  (1 <= num_simulations)%Z -> (1 <= horizon)%Z ->
  shaped (Z.to_nat num_simulations) (Z.to_nat horizon) chosen_arms
  /\ cells_all (fun x => exists arm, x = IZR arm /\ (0 <= arm < len arms)%Z)
       chosen_arms.
Proof.
  intros Hrun Hn Hh.
  assert (Harms : (0 < len arms)%Z).
  { destruct arms as [|a arms]; [|unfold len; cbn [length]; lia].
    destruct (test_algorithm_no_arm num_simulations horizon w Hn Hh) as (w0 & Hno).
    congruence. }
  destruct (test_algorithm_success _ _ _ _ _ _ _ _ Hrun)
    as (zeros & rewards & _ & _ & Hz & _ & Hsim & Hcs & _).
  split; [exact Hcs|].
  refine (simulate_cells
            (fun tables =>
               cells_all (fun x => exists arm, x = IZR arm /\ (0 <= arm < len arms)%Z)
                 (fst tables))
            arms num_simulations horizon _ _ _ _ _ Hsim _).
  - intros sim t c r w0 w1 w2 arm a reward Hsel Hget _ Hc. cbn [fst] in *.
    apply cells_all_setitem2; [assumption|].
    exists arm. split; [reflexivity|].
    pose proof (select_arm_nonneg _ _ _ Hsel) as H0.
    destruct (getitem_index _ _ _ _ Hget H0) as [Hlt _]. unfold len. lia.
  - cbn [fst]. apply (cells_all_zeros _ _ _ _ Hz).
    exists 0%Z. split; [reflexivity | lia].
Qed.

(** X16. State left by a completed [test_algorithm] run with at least one
    simulation: the strategy keeps its class and hyperparameter, and
    [counts] and [values] have [len(arms)] entries with the counts summing
    to [horizon]; they describe the last simulation only, the earlier ones
    having been erased by [initialize]. *)
Theorem test_algorithm_final_state arms num_simulations horizon (w w' : world G) out :
  test_algorithm arms num_simulations horizon w = (Ok out, w') ->
  (1 <= num_simulations)%Z -> (horizon < 9223372036854775808)%Z ->
  klass (self w') = klass (self w)
  /\ ready (length arms) horizon (self w').
Proof.
  destruct out as [[chosen_arms average_rewards] cumulative_rewards].
  intros Hrun Hn Hh.
  destruct (test_algorithm_success _ _ _ _ _ _ _ _ Hrun)
    as (zeros & rewards & _ & Hh0 & _ & _ & Hsim & _).
  destruct (simulate_ready _ _ _ _ _ _ _ Hsim Hn) as [Hr Hk]; [lia|].
  split; assumption.
Qed.

(** X17. [test_algorithm] with at least one simulation and a horizon that
    is not negative starts from a fresh state: two objects of the same
    class and hyperparameter, with the same generator, give the same
    result and the same final state whatever [counts] and [values] they
    held before the call. *)
Theorem test_algorithm_fresh_start arms num_simulations horizon (w1 w2 : world G) :
  klass (self w1) = klass (self w2) -> rng w1 = rng w2 ->
  (1 <= num_simulations)%Z -> (0 <= horizon)%Z ->
  test_algorithm arms num_simulations horizon w1
  = test_algorithm arms num_simulations horizon w2.
Proof.
  intros Hk Hg Hn Hh. unfold test_algorithm, bind, lift.
  destruct (np_zeros2 num_simulations horizon) as [zeros | e | x] eqn:Hz.
  - assert (Hsim : simulate arms num_simulations horizon (zeros, zeros) w1
                   = simulate arms num_simulations horizon (zeros, zeros) w2).
    { unfold simulate, range.
      destruct (Z.to_nat num_simulations) as [|n] eqn:Hnz; [lia|].
      cbn [seq for_]. apply bind_same. unfold bind.
      rewrite !initialize_run by (unfold len; lia).
      rewrite Hk, Hg. reflexivity. }
    rewrite Hsim. reflexivity.
  - unfold np_zeros2 in Hz.
    destruct (Z.ltb_spec num_simulations 0), (Z.ltb_spec horizon 0);
      cbn [orb] in Hz; try lia; discriminate.
  - unfold np_zeros2 in Hz.
    destruct ((num_simulations <? 0) || (horizon <? 0))%Z; discriminate.
Qed.
End HarnessRuns.


Lemma test_algorithm_chosen_arms_witness :
  shaped 1 2 {| nrows := 1; ncols := 2; cells := [[0; 0]] |}
  /\ cells_all (fun x => exists arm, x = IZR arm /\ (0 <= arm < len one_arm)%Z)
       {| nrows := 1; ncols := 2; cells := [[0; 0]] |}.
Proof.
  apply (test_algorithm_chosen_arms _ _ _ _ _ _ _ _ harness_trace); lia.
Defined.

Lemma test_algorithm_final_state_witness :
  ready (length one_arm) 2 (UCB.__init__ [2%Z] [1 / 2]).
Proof.
  apply (test_algorithm_final_state _ _ _ _ _ _ harness_trace); lia.
Defined.

Lemma test_algorithm_fresh_start_witness :
  test_algorithm one_arm 1 2 (tape_world (UCB.__init__ [5%Z] [1]) [1%Z; 7%Z])
  = test_algorithm one_arm 1 2 (tape_world (UCB.__init__ [] []) [1%Z; 7%Z]).
Proof.
  apply test_algorithm_fresh_start; [reflexivity | reflexivity | lia | lia].
Defined.

Section SelectThenUpdate.
Context {G : Type} `{NumpyRandom G}.

Lemma update_index_found arm reward k (w : world G) :
  length (counts (self w)) = length (values (self w)) ->
  position (length (counts (self w))) arm = Ok k ->
  fst (update arm reward w) <> Raise IndexError.
Proof.
  intros Hlen Hpos. rewrite update_dispatch. unfold EpsilonGreedy.update.
  cbv beta iota delta
    [bind lift ret get_counts get_values set_counts set_values getitem setitem rbind].
  cbn [self counts values klass rng].
  rewrite Hpos. cbv beta iota.
  rewrite replace_nth_length, Hpos. cbv beta iota.
  rewrite <- Hlen, Hpos. cbv beta iota.
  match goal with
  | |- context [np_div ?a ?b] =>
      destruct (np_div_cases a b) as [[_ Hd] | [_ Hd]]; rewrite Hd
  end; [cbn [fst]; discriminate|].
  match goal with
  | |- context [np_div ?a ?b] =>
      destruct (np_div_cases a b) as [[_ Hd'] | [_ Hd']]; rewrite Hd'
  end; cbn [fst]; discriminate.
Qed.

(** X18. The arm returned by [select_arm] is an index of the arrays: for
    every class and every state, a returned arm lies in [0, len(values))
    (in [0, len(counts)) for [UCB], which loops over [counts]).  Hence,
    when [counts] and [values] have the same length, the [update] of the
    returned arm that follows never raises [IndexError]. *)
Theorem select_arm_in_range (w w' : world G) arm :
  select_arm w = (Ok arm, w') ->
  (0 <= arm < match klass (self w) with
              | UCB => len (counts (self w))
              | _ => len (values (self w))
              end)%Z
  /\ (length (counts (self w)) = length (values (self w)) ->
      forall reward, fst (update arm reward w') <> Raise IndexError).
Proof.
  intros Hsel. pose proof (select_arm_bounds _ _ _ Hsel) as Hb.
  split; [exact Hb|]. intros Hlen reward.
  pose proof (select_arm_reads w) as Hs. rewrite Hsel in Hs. cbn [snd] in Hs.
  apply (update_index_found arm reward (Z.to_nat arm)).
  - now rewrite Hs.
  - rewrite Hs. apply position_nonneg. unfold len in Hb.
    destruct (klass (self w)); lia.
Qed.
End SelectThenUpdate.

Lemma select_arm_in_range_witness :
  (0 <= 0 < len (counts (self lone_world)))%Z
  /\ fst (update 0 1 lone_world) <> Raise IndexError.
Proof.
  assert (Hrun : select_arm lone_world = (Ok 0%Z, lone_world)).
  { apply (UCB_single_arm lone_world 2); [reflexivity | reflexivity | lia | reflexivity]. }
  destruct (select_arm_in_range lone_world lone_world 0 Hrun) as [Hb Hupd].
  split; [exact Hb | apply Hupd; reflexivity].
Defined.
